(** * ChronoTask Pro: the due-date reminder engine of [src/App.jsx]

    A shallow embedding of [NOTIFICATION_LEVELS], of the effect of
    [useEnhancedNotifications] and of its [checkNotifications] tick,
    together with the properties of the reminder / deduplication core.

    Modelling choices, all read off the source:
    - JS numbers that hold times are integers (milliseconds), modelled in [Z];
      [Math.floor (x / 60000)] is [Z.div], which rounds towards minus infinity.
    - [level.hours] is fractional (0.5, 10/60), so it is a rational; the five
      products [level.hours * 60] are exact in double precision
      (300, 120, 60, 30, 10), hence the comparison in [Q] is the source's.
    - [new Date(s) - now] is [NaN] for an unparseable string: minutes left is
      an [option Z], [None] standing for [NaN], and every comparison with
      [NaN] is false.
    - [notifiedTasksRef.current] is a JS [Set] of strings: a [gset string].
    - [new Notification(title, options)] is the only output: it is appended
      to the list [shown] of the state. *)

From Stdlib Require Import ZArith QArith Qround Lia.
From stdpp Require Import gmap strings list pretty.
From stdpp Require Import sorting.

Open Scope Z_scope.

(** ** Data *)

(** One entry of [NOTIFICATION_LEVELS].  [hoursText] is what a template
    literal prints for [level.hours] (JS [Number::toString]). *)
Record Level := {
  hours : Q;
  hoursText : string;
  label : string;
  color : string
}.

Definition level_5h : Level :=
  {| hours := 5; hoursText := "5"; label := "5 hours"; color := "text-blue-600" |}.
Definition level_2h : Level :=
  {| hours := 2; hoursText := "2"; label := "2 hours"; color := "text-indigo-600" |}.
Definition level_1h : Level :=
  {| hours := 1; hoursText := "1"; label := "1 hour"; color := "text-purple-600" |}.
Definition level_30m : Level :=
  {| hours := 1 # 2; hoursText := "0.5"; label := "30 minutes";
     color := "text-orange-600" |}.
Definition level_10m : Level :=
  {| hours := 10 / 60; hoursText := "0.16666666666666666"; label := "10 minutes";
     color := "text-red-600" |}.

Definition NOTIFICATION_LEVELS : list Level :=
  [level_5h; level_2h; level_1h; level_30m; level_10m].

(** [task.dueUtc]: falsy (undefined, null, empty string), or a string whose
    [Date] has the given time value ([None]: Invalid Date, i.e. [NaN]). *)
Inductive DueUtc :=
  | DueMissing
  | DueText (time : option Z).

Record Task := {
  id : string;
  title : string;
  dueUtc : DueUtc;
  clientName : string;
  completed : bool
}.

Inductive Permission := PermDefault | PermGranted | PermDenied.

Global Instance Permission_eq_dec : EqDecision Permission.
Proof. solve_decision. Defined.

(** The [options] that [checkNotifications] hands to [showNotification]:
    [body], [tag] (a caller may leave it out) and [data.taskId], [data.level]. *)
Record Options := {
  o_body : string;
  o_tag : option string;
  o_taskId : string;
  o_level : string
}.

(** The arguments of one [new Notification(title, notificationOptions)]. *)
Record Notification := {
  n_title : string;
  n_body : string;
  n_tag : string;
  n_taskId : string;
  n_level : string
}.

(** [notified] is [notifiedTasksRef.current]; [shown] lists the
    notifications created so far, oldest first. *)
Record State := {
  notified : gset string;
  shown : list Notification
}.

Definition initialState : State := {| notified := ∅; shown := [] |}.

(** ** The tick *)

Section Engine.

(** [getBangladeshTime], an [Intl.DateTimeFormat] rendering, is opaque here. *)
Variable getBangladeshTime : option Z -> string.

Definition activeTasks (tasks : list Task) : list Task :=
  filter (fun t => completed t = false) tasks.

(** [Math.floor((dueDate - now) / (1000 * 60))] *)
Definition minutesLeft (due : option Z) (now : Z) : option Z :=
  match due with
  | Some d => Some ((d - now) / (1000 * 60))
  | None => None
  end.

Definition thresholdMinutes (level : Level) : Q := (hours level * 60)%Q.

Definition Qlt_bool (a b : Q) : bool := negb (Qle_bool b a).

(** [minutesLeft <= thresholdMinutes && minutesLeft > thresholdMinutes - 1] *)
Definition inWindow (m : option Z) (level : Level) : bool :=
  match m with
  | Some m =>
      Qle_bool (inject_Z m) (thresholdMinutes level)
      && Qlt_bool (thresholdMinutes level - 1)%Q (inject_Z m)
  | None => false
  end.

(** [`task-${task.id}-${level.hours}`] *)
Definition notificationKey (task : Task) (level : Level) : string :=
  "task-" +:+ id task +:+ "-" +:+ hoursText level.

(** [notificationOptions]: the defaults of [showNotification]
    ([tag: "chronotask-reminder"]) with the caller's [...options] spread over
    them.  Icon, badge and the iOS-only fields play no part here. *)
Definition mergedNotification (title : string) (options : Options) : Notification :=
  {| n_title := title;
     n_body := o_body options;
     n_tag := default "chronotask-reminder" (o_tag options);
     n_taskId := o_taskId options;
     n_level := o_level options |}.

(** [showNotification] of [useIOSNotifications]:
    [if (permission !== "granted") return null;] then [new Notification]. *)
Definition showNotification (permission : Permission) (title : string)
    (options : Options) (shown : list Notification) : list Notification :=
  if decide (permission = PermGranted)
  then shown ++ [mergedNotification title options]
  else shown.

Definition reminderTitle (task : Task) (level : Level) : string :=
  "⏰ " +:+ label level +:+ " reminder: " +:+ title task.

Definition reminderOptions (task : Task) (due : option Z) (level : Level) : Options :=
  {| o_body := "Due: " +:+ getBangladeshTime due +:+ "
Client: " +:+ (if decide (clientName task = "") then "N/A" else clientName task);
     o_tag := Some (notificationKey task level);
     o_taskId := id task;
     o_level := label level |}.

(** The notification a reminder results in once permission is granted. *)
Definition reminder (task : Task) (due : option Z) (level : Level) : Notification :=
  mergedNotification (reminderTitle task level) (reminderOptions task due level).

(** Body of the first [NOTIFICATION_LEVELS.forEach]: [showNotification(...)]
    and then [notifiedTasksRef.current.add(notificationKey)].  [permission]
    is the one value the hook reads and [showNotification] closes over. *)
Definition checkLevel (permission : Permission) (task : Task) (due : option Z)
    (m : option Z) (st : State) (level : Level) : State :=
  if inWindow m level then
    if decide (notificationKey task level ∈ notified st) then st
    else {| notified := {[ notificationKey task level ]} ∪ notified st;
            shown := showNotification permission (reminderTitle task level)
                       (reminderOptions task due level) (shown st) |}
  else st.

(** [minutesLeft > 5 * 60] *)
Definition isFar (m : option Z) : bool :=
  match m with
  | Some m => 5 * 60 <? m
  | None => false
  end.

(** "Clean up old notifications": the second [NOTIFICATION_LEVELS.forEach]. *)
Definition cleanUp (levels : list Level) (task : Task) (st : State) : State :=
  {| notified :=
       foldl (fun s level => s ∖ {[ notificationKey task level ]}) (notified st) levels;
     shown := shown st |}.

(** Body of [activeTasks.forEach], with the table it walks as a parameter. *)
Definition checkTaskWith (permission : Permission) (levels : list Level)
    (now : Z) (st : State) (task : Task) : State :=
  match dueUtc task with
  | DueMissing => st
  | DueText due =>
      let m := minutesLeft due now in
      let st1 := foldl (checkLevel permission task due m) st levels in
      if isFar m then cleanUp levels task st1 else st1
  end.

Definition checkTask (permission : Permission) : Z -> State -> Task -> State :=
  checkTaskWith permission NOTIFICATION_LEVELS.

Definition checkNotifications (permission : Permission) (tasks : list Task)
    (now : Z) (st : State) : State :=
  foldl (checkTask permission now) st tasks.

(** One firing of the effect's timer: [if (permission !== "granted") return;]
    leaves no interval and no call behind. *)
Definition tick (permission : Permission) (tasks : list Task) (st : State)
    (now : Z) : State :=
  if decide (permission = PermGranted)
  then checkNotifications permission tasks now st
  else st.

(** The ticks at the successive clock readings [nows], over one snapshot. *)
Definition runTicks (permission : Permission) (tasks : list Task)
    (nows : list Z) (st : State) : State :=
  foldl (tick permission tasks) st nows.

(** ** The tick protocol of the design

    The reference the source is compared with.  It is written from the
    design's words and shares with the source only the state, the wording of
    a reminder and the text of a ledger key: it has its own minutes
    remaining, its own thresholds in whole minutes, its own band test and
    its own prune, and reads none of [minutesLeft], [thresholdMinutes],
    [inWindow], [isFar], [checkLevel] and [cleanUp]. *)

(** The thresholds of the design, in whole minutes and largest first, each
    with the table entry that words its reminder. *)
Definition thresholds : list (Z * Level) :=
  [(300, level_5h); (120, level_2h); (60, level_1h); (30, level_30m);
   (10, level_10m)].

(** [minutesRemaining = floor((dueAt - now) / 60000)] *)
Definition minutesRemaining (dueAt now : Z) : Z := (dueAt - now) / 60000.

(** The half-open one-minute band [W - 1 < minutesRemaining <= W]. *)
Definition inBand (W m : Z) : bool := (W - 1 <? m) && (m <=? W).

Definition shouldFire (st : State) (task : Task) (level : Level) : bool :=
  bool_decide (notificationKey task level ∉ notified st).

Definition record (task : Task) (level : Level) (st : State) : State :=
  {| notified := {[ notificationKey task level ]} ∪ notified st;
     shown := shown st |}.

Definition notify (n : Notification) (st : State) : State :=
  {| notified := notified st; shown := shown st ++ [n] |}.

(** Prune: all ledger entries of the task, one per threshold, leave the
    ledger at once; no notification is created. *)
Definition prune (task : Task) (st : State) : State :=
  {| notified :=
       notified st ∖ list_to_set ((fun p => notificationKey task p.2) <$> thresholds);
     shown := shown st |}.

(** One task in one tick: no due date, no thresholds; beyond the far cutoff,
    prune and skip the firing; otherwise walk the thresholds in order and,
    for each one that is in its band and that [shouldFire], notify and then
    [record]. *)
Definition protocolTask (farCutoffMinutes : Z) (now : Z) (st : State)
    (task : Task) : State :=
  match dueUtc task with
  | DueText (Some dueAt) =>
      let m := minutesRemaining dueAt now in
      if farCutoffMinutes <? m then prune task st
      else
        foldl (fun st p =>
                 if inBand p.1 m && shouldFire st task p.2
                 then record task p.2 (notify (reminder task (Some dueAt) p.2) st)
                 else st)
              st thresholds
  | _ => st
  end.

End Engine.

(** ** Observations and scenarios *)

(** The configured thresholds, in minutes. *)
Definition windowMinutes (level : Level) : Z :=
  Qfloor (thresholdMinutes level).

(** The configured level whose band holds [z] minutes, if any (a reading of
    the first [forEach] over the table, used to state its outcome). *)
Definition firingLevel (z : Z) : option Level :=
  if z =? 300 then Some level_5h
  else if z =? 120 then Some level_2h
  else if z =? 60 then Some level_1h
  else if z =? 30 then Some level_30m
  else if z =? 10 then Some level_10m
  else None.

(** The notifications created for a task id, and those carrying a tag. *)
Definition shownToTask (i : string) (st : State) : list Notification :=
  filter (fun n => n_taskId n = i) (shown st).

Definition shownWithTag (k : string) (st : State) : list Notification :=
  filter (fun n => n_tag n = k) (shown st).

(** Number of notifications created so far for a (task, level) pair. *)
Definition dispatches (t : Task) (level : Level) (st : State) : nat :=
  length (shownWithTag (notificationKey t level) st).

(** Two states that a task cannot tell apart. *)
Definition agree (t : Task) (a b : State) : Prop :=
  shownToTask (id t) a = shownToTask (id t) b /\
  forall level, level ∈ NOTIFICATION_LEVELS ->
    shownWithTag (notificationKey t level) a
    = shownWithTag (notificationKey t level) b /\
    (notificationKey t level ∈ notified a <->
     notificationKey t level ∈ notified b).

(** The tag the design document derives: ["task-" + taskId + "-" + windowMinutes]. *)
Definition designDedupTag (taskId : string) (windowMinutes : Z) : string :=
  "task-" +:+ taskId +:+ "-" +:+ pretty windowMinutes.

(** Clock readings one minute apart, [n] of them, from [start]. *)
Definition minuteByMinute (start : Z) (n : nat) : list Z :=
  (fun k => start + 60000 * Z.of_nat k) <$> seq 0 n.

(** A plain stand-in for the date rendering, and sample tasks. *)
Definition plainTime (due : option Z) : string :=
  match due with
  | Some d => pretty d
  | None => "Invalid Date"
  end.

Definition sampleTask (i : string) (due : DueUtc) : Task :=
  {| id := i; title := "Ship report"; dueUtc := due;
     clientName := ""; completed := false |}.

(** ** Ticks over a task list that changes

    The effect runs again (one immediate [checkNotifications], then a new
    interval) whenever [activeTasks] changes, while [notifiedTasksRef] lives
    on: a run is a sequence of (snapshot, clock reading) pairs. *)
Definition runSnapshots (getBangladeshTime : option Z -> string)
    (permission : Permission) (snaps : list (list Task * Z)) (st : State) : State :=
  foldl (fun st snap => tick getBangladeshTime permission (fst snap) st (snd snap))
        st snaps.

(** [minutesLeft] as a task's turn computes it; [None] when the turn is
    skipped or the date is invalid. *)
Definition taskMinutesLeft (task : Task) (now : Z) : option Z :=
  match dueUtc task with
  | DueMissing => None
  | DueText due => minutesLeft due now
  end.

(** ** The countdown of a task ([useCountdown], [CountdownTimer])

    The fields are JS numbers; [None] stands for [NaN], which is what every
    field becomes when the target date does not parse. *)
Record TimeLeft := {
  tl_days : option Z;
  tl_hours : option Z;
  tl_minutes : option Z;
  tl_seconds : option Z;
  tl_isOverdue : bool;
  tl_totalMinutes : option Z
}.

(** The state [useCountdown] starts from, and keeps when [!targetDate]. *)
Definition initialTimeLeft : TimeLeft :=
  {| tl_days := Some 0; tl_hours := Some 0; tl_minutes := Some 0;
     tl_seconds := Some 0; tl_isOverdue := false; tl_totalMinutes := Some 0 |}.

(** [calculateTimeLeft], with [now = new Date().getTime()] and
    [target = new Date(targetDate).getTime()].  [%] is JS's truncating
    remainder, [Z.rem]; [NaN <= 0] is false and [NaN] propagates. *)
Definition calculateTimeLeft (now : Z) (target : option Z) : TimeLeft :=
  match target with
  | None =>
      {| tl_days := None; tl_hours := None; tl_minutes := None;
         tl_seconds := None; tl_isOverdue := false; tl_totalMinutes := None |}
  | Some tg =>
      let difference := tg - now in
      if difference <=? 0 then
        {| tl_days := Some 0; tl_hours := Some 0; tl_minutes := Some 0;
           tl_seconds := Some 0; tl_isOverdue := true; tl_totalMinutes := Some 0 |}
      else
        let totalMinutes := difference / (1000 * 60) in
        {| tl_days := Some (difference / (1000 * 60 * 60 * 24));
           tl_hours :=
             Some (Z.rem difference (1000 * 60 * 60 * 24) / (1000 * 60 * 60));
           tl_minutes := Some (Z.rem difference (1000 * 60 * 60) / (1000 * 60));
           tl_seconds := Some (Z.rem difference (1000 * 60) / 1000);
           tl_isOverdue := false;
           tl_totalMinutes := Some totalMinutes |}
  end.

(** The value of the hook once its effect has run at clock reading [now];
    with a [targetDate] that is falsy from the start the effect returns at
    once and the initial state stays. *)
Definition useCountdown (targetDate : DueUtc) (now : Z) : TimeLeft :=
  match targetDate with
  | DueMissing => initialTimeLeft
  | DueText target => calculateTimeLeft now target
  end.

Record TimerConfig := {
  tc_color : string;
  tc_bg : string;
  tc_border : string;
  tc_label : string
}.

(** Comparisons of a JS number with a literal; false on [NaN]. *)
Definition numLe (x : option Z) (b : Z) : bool :=
  match x with Some z => z <=? b | None => false end.

Definition numLt (x : option Z) (b : Z) : bool :=
  match x with Some z => z <? b | None => false end.

Definition numGt (x : option Z) (b : Z) : bool :=
  match x with Some z => b <? z | None => false end.

(** A JS number inside a template literal. *)
Definition numText (x : option Z) : string :=
  match x with Some z => pretty z | None => "NaN" end.

Definition getTimerConfig (timeLeft : TimeLeft) : TimerConfig :=
  if tl_isOverdue timeLeft then
    {| tc_color := "text-rose-600"; tc_bg := "bg-rose-50";
       tc_border := "border-rose-200"; tc_label := "Overdue" |}
  else if numLe (tl_totalMinutes timeLeft) 10 then
    {| tc_color := "text-rose-600"; tc_bg := "bg-rose-50";
       tc_border := "border-rose-200"; tc_label := "Urgent" |}
  else if numLe (tl_totalMinutes timeLeft) 30 then
    {| tc_color := "text-amber-600"; tc_bg := "bg-amber-50";
       tc_border := "border-amber-200"; tc_label := "Soon" |}
  else if numLe (tl_totalMinutes timeLeft) 60 then
    {| tc_color := "text-yellow-600"; tc_bg := "bg-yellow-50";
       tc_border := "border-yellow-200"; tc_label := "Approaching" |}
  else if numLe (tl_totalMinutes timeLeft) 120 then
    {| tc_color := "text-blue-600"; tc_bg := "bg-blue-50";
       tc_border := "border-blue-200"; tc_label := "Upcoming" |}
  else
    {| tc_color := "text-emerald-600"; tc_bg := "bg-emerald-50";
       tc_border := "border-emerald-200"; tc_label := "Planned" |}.

Definition getTimerText (timeLeft : TimeLeft) : string :=
  if tl_isOverdue timeLeft then
    let overdueMinutes := Z.abs <$> tl_totalMinutes timeLeft in
    if numLt overdueMinutes 60 then numText overdueMinutes +:+ "m overdue"
    else numText ((fun m => m / 60) <$> overdueMinutes) +:+ "h "
         +:+ numText ((fun m => Z.rem m 60) <$> overdueMinutes) +:+ "m overdue"
  else if numGt (tl_days timeLeft) 0 then
    numText (tl_days timeLeft) +:+ "d " +:+ numText (tl_hours timeLeft) +:+ "h"
  else if numGt (tl_hours timeLeft) 0 then
    numText (tl_hours timeLeft) +:+ "h " +:+ numText (tl_minutes timeLeft) +:+ "m"
  else
    numText (tl_minutes timeLeft) +:+ "m " +:+ numText (tl_seconds timeLeft) +:+ "s".

(** How pressing a label is, for comparing two countdowns. *)
Definition urgencyRank (config : TimerConfig) : nat :=
  if decide (tc_label config = "Overdue") then 5
  else if decide (tc_label config = "Urgent") then 4
  else if decide (tc_label config = "Soon") then 3
  else if decide (tc_label config = "Approaching") then 2
  else if decide (tc_label config = "Upcoming") then 1
  else 0.

(** ** The task list of [TodoApp]

    [Task] holds the fields the reminder engine and the counters read;
    [notes], [clientCountry] and [createdAtUtc] ride along unchanged in the
    operations below and are not represented. *)

(** [new Date(t.dueUtc).getTime()], [None] both when [t.dueUtc] is falsy
    and when it is invalid: every guarded comparison below is false then. *)
Definition dueTime (task : Task) : option Z :=
  match dueUtc task with
  | DueMissing => None
  | DueText time => time
  end.

(** [t.dueUtc && new Date(t.dueUtc) < new Date()] *)
Definition isOverdueAt (now : Z) (task : Task) : bool :=
  numLt (dueTime task) now.

(** [t.dueUtc && new Date(t.dueUtc) > new Date() &&
     new Date(t.dueUtc) <= new Date(Date.now() + 5 * 60 * 60 * 1000)] *)
Definition isDueSoonAt (now : Z) (task : Task) : bool :=
  numGt (dueTime task) now && numLe (dueTime task) (now + 5 * 60 * 60 * 1000).

(** The counters of [stats], read at one clock reading. *)
Definition stats_total (tasks : list Task) : nat := length tasks.

Definition stats_completed (tasks : list Task) : nat :=
  length (filter (fun t => completed t = true) tasks).

Definition stats_active (tasks : list Task) : nat :=
  length (activeTasks tasks).

Definition stats_overdue (now : Z) (tasks : list Task) : nat :=
  length (filter (fun t => isOverdueAt now t = true) (activeTasks tasks)).

Definition stats_dueSoon (now : Z) (tasks : list Task) : nat :=
  length (filter (fun t => isDueSoonAt now t = true) (activeTasks tasks)).

(** The updater of [toggleComplete]: [{ ...task, completed: !task.completed }]
    for every task of that id (the list it returns; it also writes the
    history and a toast for each such task). *)
Definition toggleComplete (i : string) (prev : list Task) : list Task :=
  (fun task =>
     if decide (id task = i)
     then {| id := id task; title := title task; dueUtc := dueUtc task;
             clientName := clientName task;
             completed := negb (completed task) |}
     else task) <$> prev.

(** The updater of [deleteTask]. *)
Definition deleteTask (i : string) (prev : list Task) : list Task :=
  filter (fun task => id task <> i) prev.

(** The updater of [clearCompleted]. *)
Definition clearCompleted (prev : list Task) : list Task :=
  filter (fun task => completed task = false) prev.

(** The [updates] object of [updateTask]; a key that is not passed is [None]. *)
Record TaskUpdates := {
  u_title : option string;
  u_clientName : option string;
  u_dueUtc : option DueUtc
}.

(** The updater of [updateTask]: [{ ...task, ...updates }] for that id. *)
Definition updateTask (i : string) (updates : TaskUpdates) (prev : list Task)
    : list Task :=
  (fun task =>
     if decide (id task = i)
     then {| id := id task;
             title := default (title task) (u_title updates);
             dueUtc := default (dueUtc task) (u_dueUtc updates);
             clientName := default (clientName task) (u_clientName updates);
             completed := completed task |}
     else task) <$> prev.

(** [Array.prototype.sort(compare)]: ECMAScript requires the sort to be
    stable, so for a consistent comparator the result is the one an
    insertion from the right gives: [x] goes before the first element that
    does not compare below it. *)
Fixpoint insertSorted {A : Type} (compare : A -> A -> Z) (x : A) (l : list A)
    : list A :=
  match l with
  | [] => [x]
  | y :: rest =>
      if compare x y <=? 0 then x :: y :: rest
      else y :: insertSorted compare x rest
  end.

Definition arraySort {A : Type} (compare : A -> A -> Z) (l : list A) : list A :=
  foldr (insertSorted compare) [] l.

(** [new Date(a.dueUtc) - new Date(b.dueUtc)]; [sort] reads [NaN] as 0. *)
Definition compareDue (a b : Task) : Z :=
  match dueTime a, dueTime b with
  | Some x, Some y => x - y
  | _, _ => 0
  end.

(** [nextUpcomingTask]: the first of the upcoming active tasks by due date,
    [undefined] when there is none. *)
Definition nextUpcomingTask (now : Z) (tasks : list Task) : option Task :=
  head (arraySort compareDue
          (filter (fun task => numGt (dueTime task) now = true)
                  (activeTasks tasks))).

(** ** The history kept under [HISTORY_STORAGE_KEY]

    An entry as [addToHistory] writes it; [clientCountry] and [notes] are
    copied from task fields that [Task] does not carry and are left out. *)
Record HistoryEntry := {
  h_id : string;
  h_timestamp : Z;
  h_action : string;
  h_taskId : string;
  h_taskTitle : string;
  h_clientName : string;
  h_dueUtc : DueUtc;
  h_oldValue : option string;
  h_newValue : option string;
  h_completedAt : option Z
}.

(** What [localStorage.getItem(HISTORY_STORAGE_KEY)] holds: nothing (or the
    empty text), the JSON of an array of entries, or text that none of the
    three readers below gets through: text that is not JSON, where
    [JSON.parse] throws, or the JSON of [null], of a number, of a boolean or
    of an object that is not an array, where [slice], [filter] and the array
    spread throw.  The type stops there: a store that holds a JSON string,
    which [addToHistory] and the import would spread into its characters
    while the panel's [filter] throws, has no constructor, nor has an array
    with items other than entries. *)
Inductive StoredHistory :=
  | NotStored
  | StoredEntries (entries : list HistoryEntry)
  | StoredUnreadable.

(** The array that [JSON.parse(localStorage.getItem(HISTORY_STORAGE_KEY) ||
    "[]")] gives the reader to work on; [None] for [StoredUnreadable], where
    each of the three readers ends in its [catch]. *)
Definition readHistory (stored : StoredHistory) : option (list HistoryEntry) :=
  match stored with
  | NotStored => Some []
  | StoredEntries entries => Some entries
  | StoredUnreadable => None
  end.

(** [addToHistory]; [newId] is the result of [genId()], [now] and [now']
    the two readings of [nowUtcIso()].  An exception is caught and logged,
    and nothing is written. *)
Definition addToHistory (newId : string) (now now' : Z) (action : string)
    (task : Task) (oldValue newValue : option string) (stored : StoredHistory)
    : StoredHistory :=
  match readHistory stored with
  | Some existing =>
      let historyEntry :=
        {| h_id := newId;
           h_timestamp := now;
           h_action := action;
           h_taskId := id task;
           h_taskTitle := title task;
           h_clientName := clientName task;
           h_dueUtc := dueUtc task;
           h_oldValue := oldValue;
           h_newValue := newValue;
           h_completedAt :=
             if decide (action = "completed") then Some now' else None |} in
      StoredEntries (historyEntry :: take 499 existing)
  | None => stored
  end.

(** The history part of [importJson], reached once the tasks of the file
    were accepted: [data.history] when it is an array ([None] otherwise)
    goes in front of the stored entries, cut at 499; an exception leaves the
    store as it is. *)
Definition importHistory (imported : option (list HistoryEntry))
    (stored : StoredHistory) : StoredHistory :=
  match imported with
  | None => stored
  | Some history =>
      match readHistory stored with
      | Some existingHistory =>
          StoredEntries (take 499 (history ++ existingHistory))
      | None => stored
      end
  end.

(** What [HistoryPanel] loads when it opens: the completed entries; on an
    exception the state keeps its initial empty array. *)
Definition loadHistory (stored : StoredHistory) : list HistoryEntry :=
  match readHistory stored with
  | Some entries => filter (fun item => h_action item = "completed") entries
  | None => []
  end.

(** A history entry for the scenarios, told apart by its id. *)
Definition sampleEntry (i : string) : HistoryEntry :=
  {| h_id := i;
     h_timestamp := 0;
     h_action := "created";
     h_taskId := "a";
     h_taskTitle := "";
     h_clientName := "";
     h_dueUtc := DueMissing;
     h_oldValue := None;
     h_newValue := None;
     h_completedAt := None |}.

(** A sequence of [addToHistory] calls, oldest call first; each call brings
    its id, its two clock readings, the action and the task. *)
Definition addAllToHistory
    (calls : list (string * Z * Z * string * Task)) (stored : StoredHistory)
    : StoredHistory :=
  foldl (fun st call =>
           match call with
           | (newId, now, now', action, task) =>
               addToHistory newId now now' action task None None st
           end) stored calls.

(** ** The list shown ([filteredTasks])

    The search test (lower-cased [includes] over title, notes, client name
    and country), the comparison of creation dates and [localeCompare] are
    taken as they come. *)
Section Listing.

Variable queryMatches : string -> Task -> bool.
Variable compareCreated : Task -> Task -> Z.
Variable localeCompare : string -> string -> Z.

(** The comparator handed to [arr.sort], by [sortBy]. *)
Definition compareBy (sortBy : string) (a b : Task) : Z :=
  if decide (sortBy = "due") then
    match dueUtc a, dueUtc b with
    | DueMissing, DueMissing => 0
    | DueMissing, DueText _ => 1
    | DueText _, DueMissing => -1
    | DueText x, DueText y =>
        match x, y with
        | Some x, Some y => x - y
        | _, _ => 0
        end
    end
  else if decide (sortBy = "created") then compareCreated a b
  else if decide (sortBy = "title") then localeCompare (title a) (title b)
  else if decide (sortBy = "client") then
    localeCompare (clientName a) (clientName b)
  else 0.

Definition filteredTasks (filterBy debouncedQuery sortBy : string)
    (tasks : list Task) : list Task :=
  let arr := activeTasks tasks in
  let arr := if decide (filterBy = "active")
             then filter (fun t => completed t = false) arr else arr in
  let arr := if decide (filterBy = "completed")
             then filter (fun t => completed t = true) arr else arr in
  let arr := if decide (debouncedQuery = "") then arr
             else filter (fun t => queryMatches debouncedQuery t = true) arr in
  arraySort (compareBy sortBy) arr.

End Listing.

Section Facts.

Variable fmt : option Z -> string.

(** ** The window test *)

Lemma Qlt_bool_iff (a b : Q) : Qlt_bool a b = true <-> (a < b)%Q.
Proof.
  unfold Qlt_bool. rewrite negb_true_iff. split.
  - intros H. apply Qnot_le_lt. intros Hle.
    apply Qle_bool_iff in Hle. congruence.
  - intros H. destruct (Qle_bool b a) eqn:E; [|reflexivity].
    apply Qle_bool_iff in E. exfalso. exact (Qlt_not_le _ _ H E).
Qed.

Lemma inWindow_iff (m : Z) (level : Level) :
  inWindow (Some m) level = true <->
  (thresholdMinutes level - 1 < inject_Z m)%Q /\
  (inject_Z m <= thresholdMinutes level)%Q.
Proof.
  unfold inWindow. rewrite andb_true_iff, Qle_bool_iff, Qlt_bool_iff. tauto.
Qed.

(** When the threshold is a whole number of minutes, the band holds one
    integer only. *)
Lemma inWindow_whole (m W : Z) (level : Level) :
  (thresholdMinutes level == inject_Z W)%Q ->
  inWindow (Some m) level = true <-> W - 1 < m <= W.
Proof.
  intros HW. rewrite inWindow_iff, HW.
  unfold Qlt, Qle, Qminus, Qplus, Qopp, inject_Z. simpl. lia.
Qed.

Lemma inWindow_eqb (m W : Z) (level : Level) :
  (thresholdMinutes level == inject_Z W)%Q ->
  inWindow (Some m) level = (m =? W).
Proof.
  intros HW. apply eq_true_iff_eq.
  rewrite (inWindow_whole m W level HW), Z.eqb_eq. lia.
Qed.

Lemma configured_whole (level : Level) :
  level ∈ NOTIFICATION_LEVELS ->
  (thresholdMinutes level == inject_Z (windowMinutes level))%Q /\
  0 < windowMinutes level <= 300.
Proof.
  unfold NOTIFICATION_LEVELS. rewrite !elem_of_cons, elem_of_nil.
  intros [->|[->|[->|[->|[->|[]]]]]]; vm_compute; repeat split; congruence.
Qed.

Lemma inWindow_configured (m : Z) (level : Level) :
  level ∈ NOTIFICATION_LEVELS ->
  inWindow (Some m) level = (m =? windowMinutes level).
Proof. intros H. apply inWindow_eqb, configured_whole, H. Qed.

(** ** Ledger keys *)

Local Abbreviation chars := String.list_ascii_of_string.

Lemma chars_app (a b : string) :
  chars (a +:+ b) = chars a ++ chars b.
Proof. induction a as [|c a IH]; simpl; [reflexivity | by rewrite IH]. Qed.

Lemma chars_inj (a b : string) :
  chars a = chars b -> a = b.
Proof.
  intros H. rewrite <- (String.string_of_list_ascii_of_string a),
    <- (String.string_of_list_ascii_of_string b). by rewrite H.
Qed.

(** Reading an equation between two suffixed strings from the right. *)
Lemma suffixed_eq_rev (a b s s' : string) :
  a +:+ s = b +:+ s' ->
  rev (chars s) ++ rev (chars a)
  = rev (chars s') ++ rev (chars b).
Proof.
  intros H. apply (f_equal chars) in H.
  rewrite !chars_app in H. apply (f_equal (@rev Ascii.ascii)) in H.
  by rewrite !rev_app_distr in H.
Qed.

Lemma rev_chars_inj (a b : string) :
  rev (chars a) = rev (chars b) -> a = b.
Proof.
  intros H. apply chars_inj. apply (f_equal (@rev Ascii.ascii)) in H.
  by rewrite !rev_involutive in H.
Qed.

(** No two (task id, configured level) pairs share a key, whatever the ids. *)
Lemma notificationKey_inj (t t' : Task) (level level' : Level) :
  level ∈ NOTIFICATION_LEVELS -> level' ∈ NOTIFICATION_LEVELS ->
  notificationKey t level = notificationKey t' level' ->
  id t = id t' /\ level = level'.
Proof.
  unfold NOTIFICATION_LEVELS. rewrite !elem_of_cons, !elem_of_nil.
  unfold notificationKey.
  intros Hl Hl' H. simpl in H. injection H as H.
  apply (suffixed_eq_rev (id t) (id t') ("-" +:+ hoursText level)
           ("-" +:+ hoursText level')) in H.
  destruct Hl as [->|[->|[->|[->|[->|[]]]]]];
  destruct Hl' as [->|[->|[->|[->|[->|[]]]]]];
  simpl in H; try discriminate H;
  (split; [apply rev_chars_inj; congruence | reflexivity]).
Qed.

Lemma notificationKey_ne_id (t t' : Task) (level level' : Level) :
  level ∈ NOTIFICATION_LEVELS -> level' ∈ NOTIFICATION_LEVELS ->
  id t <> id t' -> notificationKey t level <> notificationKey t' level'.
Proof. intros Hl Hl' Hne H. by destruct (notificationKey_inj _ _ _ _ Hl Hl' H). Qed.

Lemma notificationKey_ne_level (t : Task) (level level' : Level) :
  level ∈ NOTIFICATION_LEVELS -> level' ∈ NOTIFICATION_LEVELS ->
  level <> level' -> notificationKey t level <> notificationKey t level'.
Proof. intros Hl Hl' Hne H. by destruct (notificationKey_inj _ _ _ _ Hl Hl' H). Qed.

(** ** What one task's turn does *)

Lemma firingLevel_Some (z : Z) (level : Level) :
  firingLevel z = Some level <->
  level ∈ NOTIFICATION_LEVELS /\ z = windowMinutes level.
Proof.
  unfold firingLevel, NOTIFICATION_LEVELS.
  rewrite !elem_of_cons, elem_of_nil. split.
  - destruct (Z.eqb_spec z 300) as [->|_]; [intros [= <-]; split; [tauto|done]|].
    destruct (Z.eqb_spec z 120) as [->|_]; [intros [= <-]; split; [tauto|done]|].
    destruct (Z.eqb_spec z 60) as [->|_]; [intros [= <-]; split; [tauto|done]|].
    destruct (Z.eqb_spec z 30) as [->|_]; [intros [= <-]; split; [tauto|done]|].
    destruct (Z.eqb_spec z 10) as [->|_]; [intros [= <-]; split; [tauto|done]|].
    discriminate.
  - intros [[->|[->|[->|[->|[->|[]]]]]] ->]; reflexivity.
Qed.

Lemma firingLevel_None (z : Z) :
  firingLevel z = None <->
  forall level, level ∈ NOTIFICATION_LEVELS -> z <> windowMinutes level.
Proof.
  split.
  - intros HN level Hl ->.
    assert (firingLevel (windowMinutes level) = Some level) as HS
      by (by apply firingLevel_Some).
    congruence.
  - intros H. destruct (firingLevel z) as [level|] eqn:E; [|reflexivity].
    apply firingLevel_Some in E as [Hl ->]. by destruct (H level Hl).
Qed.

Lemma firingLevel_le (z : Z) (level : Level) :
  firingLevel z = Some level -> 0 < z <= 300.
Proof.
  intros [Hl ->]%firingLevel_Some. by apply configured_whole.
Qed.

Lemma checkLevel_out (t : Task) due m st level :
  inWindow m level = false -> checkLevel fmt PermGranted t due m st level = st.
Proof. unfold checkLevel. by intros ->. Qed.

Lemma checkLevel_in (t : Task) due m st level :
  inWindow m level = true ->
  checkLevel fmt PermGranted t due m st level =
    if decide (notificationKey t level ∈ notified st) then st
    else {| notified := {[ notificationKey t level ]} ∪ notified st;
            shown := shown st ++ [reminder fmt t due level] |}.
Proof. unfold checkLevel. by intros ->. Qed.

(** The first loop fires the one level whose band holds [z], and no other. *)
Lemma checkLevels_configured (t : Task) due (z : Z) (st : State) :
  foldl (checkLevel fmt PermGranted t due (Some z)) st NOTIFICATION_LEVELS =
  match firingLevel z with
  | Some level => checkLevel fmt PermGranted t due (Some z) st level
  | None => st
  end.
Proof.
  assert (forall level W s, (thresholdMinutes level == inject_Z W)%Q ->
            z <> W -> checkLevel fmt PermGranted t due (Some z) s level = s) as Hout.
  { intros level W s HW Hne. apply checkLevel_out.
    rewrite (inWindow_eqb z W level HW). by apply Z.eqb_neq. }
  assert (forall level s, level ∈ NOTIFICATION_LEVELS ->
            z <> windowMinutes level ->
            checkLevel fmt PermGranted t due (Some z) s level = s) as Hskip.
  { intros level s Hl. apply Hout, configured_whole, Hl. }
  assert (forall level, level ∈ NOTIFICATION_LEVELS ->
            z = windowMinutes level ->
            foldl (checkLevel fmt PermGranted t due (Some z)) st NOTIFICATION_LEVELS
            = checkLevel fmt PermGranted t due (Some z) st level) as Hat.
  { intros level Hl ->. revert Hl. unfold NOTIFICATION_LEVELS at 1.
    rewrite !elem_of_cons, elem_of_nil.
    intros [->|[->|[->|[->|[->|[]]]]]]; simpl foldl;
      repeat match goal with
      | |- context [checkLevel fmt PermGranted t due _ ?s ?l] =>
          rewrite (Hskip l s)
            by first [ by vm_compute | unfold NOTIFICATION_LEVELS; set_solver ]
      end; reflexivity. }
  destruct (firingLevel z) as [level|] eqn:E.
  - apply firingLevel_Some in E as [Hl Hz]. by apply Hat.
  - unfold NOTIFICATION_LEVELS at 1. simpl foldl.
    assert (forall level, level ∈ NOTIFICATION_LEVELS ->
              z <> windowMinutes level) as HN by (by apply firingLevel_None).
    rewrite !Hskip; first [ reflexivity | apply HN | idtac ];
      unfold NOTIFICATION_LEVELS; set_solver.
Qed.

Lemma checkLevels_none (t : Task) due (st : State) (levels : list Level) :
  foldl (checkLevel fmt PermGranted t due None) st levels = st.
Proof. induction levels as [|level levels IH]; simpl; [reflexivity | exact IH]. Qed.

Lemma cleanUp_notified (levels : list Level) (t : Task) (st : State) (k : string) :
  k ∈ notified (cleanUp levels t st) <->
  k ∈ notified st /\ forall level, level ∈ levels -> k <> notificationKey t level.
Proof.
  unfold cleanUp. simpl. generalize (notified st) as s.
  induction levels as [|level levels IH]; intros s; simpl.
  - set_solver.
  - rewrite IH. set_solver.
Qed.

(** The turn of a task whose due date parses, by cases on the minutes left. *)
Lemma checkTask_due (t : Task) (d z now : Z) (st : State) :
  dueUtc t = DueText (Some d) -> minutesLeft (Some d) now = Some z ->
  checkTask fmt PermGranted now st t =
    if 300 <? z then cleanUp NOTIFICATION_LEVELS t st
    else match firingLevel z with
         | Some level => checkLevel fmt PermGranted t (Some d) (Some z) st level
         | None => st
         end.
Proof.
  intros Hd Hm. unfold checkTask, checkTaskWith. rewrite Hd, Hm. cbv zeta.
  rewrite checkLevels_configured. unfold isFar.
  change (5 * 60) with 300.
  destruct (Z.ltb_spec 300 z) as [Hfar|Hnear]; [|reflexivity].
  destruct (firingLevel z) as [level|] eqn:E; [|reflexivity].
  apply firingLevel_le in E. lia.
Qed.

Lemma checkTask_far (t : Task) (d z now : Z) (st : State) :
  dueUtc t = DueText (Some d) -> minutesLeft (Some d) now = Some z ->
  300 < z ->
  checkTask fmt PermGranted now st t = cleanUp NOTIFICATION_LEVELS t st.
Proof.
  intros Hd Hm Hz. rewrite (checkTask_due t d z now st Hd Hm).
  destruct (Z.ltb_spec 300 z); [reflexivity | lia].
Qed.

Lemma checkTask_idle (t : Task) (d z now : Z) (st : State) :
  dueUtc t = DueText (Some d) -> minutesLeft (Some d) now = Some z ->
  z <= 300 -> firingLevel z = None ->
  checkTask fmt PermGranted now st t = st.
Proof.
  intros Hd Hm Hz HN. rewrite (checkTask_due t d z now st Hd Hm), HN.
  destruct (Z.ltb_spec 300 z); [lia | reflexivity].
Qed.

Lemma checkTask_at (t : Task) (d z now : Z) (st : State) (level : Level) :
  dueUtc t = DueText (Some d) -> minutesLeft (Some d) now = Some z ->
  level ∈ NOTIFICATION_LEVELS -> inWindow (Some z) level = true ->
  checkTask fmt PermGranted now st t =
    if decide (notificationKey t level ∈ notified st) then st
    else {| notified := {[ notificationKey t level ]} ∪ notified st;
            shown := shown st ++ [reminder fmt t (Some d) level] |}.
Proof.
  intros Hd Hm Hl Hw. rewrite (checkTask_due t d z now st Hd Hm).
  rewrite (inWindow_configured z level Hl) in Hw. apply Z.eqb_eq in Hw.
  assert (firingLevel z = Some level) as HS by (by apply firingLevel_Some).
  rewrite HS. pose proof (firingLevel_le z level HS).
  destruct (Z.ltb_spec 300 z); [lia|].
  apply checkLevel_in. rewrite (inWindow_configured z level Hl).
  by apply Z.eqb_eq.
Qed.

(** ** One task's view of the state *)

Lemma agree_refl (t : Task) (a : State) : agree t a a.
Proof. split; [reflexivity | intros; split; reflexivity]. Qed.

Lemma agree_sym (t : Task) (a b : State) : agree t a b -> agree t b a.
Proof.
  intros [H1 H2]. split; [done|]. intros level Hl.
  destruct (H2 level Hl) as [-> ->]. done.
Qed.

Lemma agree_trans (t : Task) (a b c : State) :
  agree t a b -> agree t b c -> agree t a c.
Proof.
  intros [H1 H2] [H3 H4]. split; [congruence|]. intros level Hl.
  destruct (H2 level Hl) as [-> ->]. by apply H4.
Qed.

Lemma agree_dispatches (t : Task) (a b : State) (level : Level) :
  agree t a b -> level ∈ NOTIFICATION_LEVELS ->
  dispatches t level a = dispatches t level b.
Proof. intros [_ H] Hl. unfold dispatches. by destruct (H level Hl) as [-> _]. Qed.

Lemma agree_same_id (t t' : Task) (a b : State) :
  id t = id t' -> agree t a b -> agree t' a b.
Proof.
  unfold agree, notificationKey. by intros ->.
Qed.

(** Recording one more reminder of another task is invisible. *)
Lemma agree_fire_other (t t' : Task) due (level' : Level) (st : State) :
  id t' <> id t -> level' ∈ NOTIFICATION_LEVELS ->
  agree t {| notified := {[ notificationKey t' level' ]} ∪ notified st;
             shown := shown st ++ [reminder fmt t' due level'] |} st.
Proof.
  intros Hne Hl'. split.
  - unfold shownToTask. simpl. rewrite filter_app, filter_cons_False.
    + by rewrite filter_nil, app_nil_r.
    + simpl. done.
  - intros level Hl.
    assert (notificationKey t' level' <> notificationKey t level) as Hk
      by (by apply notificationKey_ne_id).
    split.
    + unfold shownWithTag. simpl. rewrite filter_app, filter_cons_False.
      * by rewrite filter_nil, app_nil_r.
      * simpl. done.
    + simpl. rewrite elem_of_union, elem_of_singleton. naive_solver.
Qed.

(** Another task's turn leaves the view untouched. *)
Lemma checkTask_frame (t t' : Task) (now : Z) (st : State) :
  id t' <> id t -> agree t (checkTask fmt PermGranted now st t') st.
Proof.
  intros Hne.
  destruct (dueUtc t') as [|[d|]] eqn:Hd;
    [unfold checkTask, checkTaskWith; rewrite Hd; apply agree_refl| |].
  -     rewrite (checkTask_due t' d _ now st Hd eq_refl).
    destruct (Z.ltb_spec 300 ((d - now) / (1000 * 60))).
    + split; [reflexivity|]. intros level Hl. split; [reflexivity|].
      rewrite cleanUp_notified. split; [tauto|]. intros Hin. split; [done|].
      intros level' Hl'. apply not_eq_sym. by apply notificationKey_ne_id.
    + destruct (firingLevel _) as [level'|] eqn:E; [|apply agree_refl].
      apply firingLevel_Some in E as [Hl' _].
      unfold checkLevel. destruct (inWindow _ _); [|apply agree_refl].
      destruct (decide _); [apply agree_refl|]. by apply agree_fire_other.
  - unfold checkTask, checkTaskWith. rewrite Hd. cbv zeta.
    change (minutesLeft None now) with (@None Z).
    rewrite checkLevels_none. apply agree_refl.
Qed.

Lemma agree_fire_same (t : Task) (k : string) (n : Notification) (a b : State) :
  agree t a b ->
  agree t {| notified := {[ k ]} ∪ notified a; shown := shown a ++ [n] |}
          {| notified := {[ k ]} ∪ notified b; shown := shown b ++ [n] |}.
Proof.
  intros [H1 H2]. split.
  - unfold shownToTask in *. simpl. rewrite !filter_app. by rewrite H1.
  - intros level Hl. destruct (H2 level Hl) as [H3 H4]. split.
    + unfold shownWithTag in *. simpl. rewrite !filter_app. by rewrite H3.
    + simpl. rewrite !elem_of_union. tauto.
Qed.

(** The task's own turn only reads its view. *)
Lemma checkTask_agree (t : Task) (now : Z) (a b : State) :
  agree t a b -> agree t (checkTask fmt PermGranted now a t) (checkTask fmt PermGranted now b t).
Proof.
  intros Hab.
  destruct (dueUtc t) as [|[d|]] eqn:Hd.
  - unfold checkTask, checkTaskWith. by rewrite Hd.
  - rewrite !(checkTask_due t d _ now _ Hd eq_refl).
    destruct (Z.ltb_spec 300 ((d - now) / (1000 * 60))).
    + destruct Hab as [H1 H2]. split; [exact H1|]. intros level Hl.
      destruct (H2 level Hl) as [H3 H4]. split; [exact H3|].
      rewrite !cleanUp_notified. split; intros [_ Hk]; by destruct (Hk level Hl).
    + destruct (firingLevel _) as [level'|] eqn:E; [|exact Hab].
      apply firingLevel_Some in E as [Hl' _].
      unfold checkLevel. destruct (inWindow _ _); [|exact Hab].
      destruct Hab as [H1 H2]. destruct (H2 level' Hl') as [_ Hk].
      destruct (decide (notificationKey t level' ∈ notified a)) as [Ha|Ha];
        destruct (decide (notificationKey t level' ∈ notified b)) as [Hb|Hb];
        try tauto; [by split | by apply agree_fire_same].
  - unfold checkTask, checkTaskWith. rewrite Hd. cbv zeta.
    change (minutesLeft None now) with (@None Z).
    by rewrite !checkLevels_none.
Qed.

Lemma checkNotifications_cons (t : Task) (tasks : list Task) now st :
  checkNotifications fmt PermGranted (t :: tasks) now st
  = checkNotifications fmt PermGranted tasks now (checkTask fmt PermGranted now st t).
Proof. reflexivity. Qed.

Lemma checkNotifications_frame (t : Task) (tasks : list Task) now st :
  (forall t', t' ∈ tasks -> id t' <> id t) ->
  agree t (checkNotifications fmt PermGranted tasks now st) st.
Proof.
  revert st. induction tasks as [|t0 tasks IH]; intros st Hne.
  - apply agree_refl.
  - rewrite checkNotifications_cons.
    eapply agree_trans; [apply IH | apply checkTask_frame].
    + intros t' Ht'. apply Hne. by right.
    + apply Hne. by left.
Qed.

(** With distinct ids, a whole tick shows a task what its own turn does. *)
Lemma checkNotifications_local (t : Task) (tasks : list Task) now st :
  NoDup (id <$> tasks) -> t ∈ tasks ->
  agree t (checkNotifications fmt PermGranted tasks now st) (checkTask fmt PermGranted now st t).
Proof.
  revert st. induction tasks as [|t0 tasks IH]; intros st Hnd Hin.
  - by apply elem_of_nil in Hin.
  - rewrite fmap_cons in Hnd. apply NoDup_cons in Hnd as [Hfresh Hnd].
    rewrite checkNotifications_cons.
    apply elem_of_cons in Hin as [->|Hin].
    + apply checkNotifications_frame. intros t' Ht' Heq.
      apply Hfresh. rewrite <- Heq. by apply list_elem_of_fmap_2.
    + eapply agree_trans; [by apply IH|].
      apply checkTask_agree, checkTask_frame. intros Heq.
      apply Hfresh. rewrite Heq. by apply list_elem_of_fmap_2.
Qed.

Lemma tick_granted (tasks : list Task) st now :
  tick fmt PermGranted tasks st now = checkNotifications fmt PermGranted tasks now st.
Proof. reflexivity. Qed.

Lemma tick_single (t : Task) st now :
  tick fmt PermGranted [t] st now = checkTask fmt PermGranted now st t.
Proof. reflexivity. Qed.

Lemma runTicks_cons perm (tasks : list Task) now nows st :
  runTicks fmt perm tasks (now :: nows) st
  = runTicks fmt perm tasks nows (tick fmt perm tasks st now).
Proof. reflexivity. Qed.

Lemma runTicks_app perm (tasks : list Task) nows1 nows2 st :
  runTicks fmt perm tasks (nows1 ++ nows2) st
  = runTicks fmt perm tasks nows2 (runTicks fmt perm tasks nows1 st).
Proof. unfold runTicks. apply foldl_app. Qed.

(** A run over many tasks and a run over the task alone agree on its view. *)
Lemma runTicks_local (t : Task) (tasks : list Task) nows a b :
  NoDup (id <$> tasks) -> t ∈ tasks -> agree t a b ->
  agree t (runTicks fmt PermGranted tasks nows a)
          (runTicks fmt PermGranted [t] nows b).
Proof.
  intros Hnd Hin. revert a b.
  induction nows as [|now nows IH]; intros a b Hab; [exact Hab|].
  rewrite !runTicks_cons. apply IH. rewrite tick_granted, tick_single.
  eapply agree_trans; [by apply checkNotifications_local|].
  by apply checkTask_agree.
Qed.

Lemma runTicks_unchanged perm (tasks : list Task) nows st :
  (forall now, now ∈ nows -> tick fmt perm tasks st now = st) ->
  runTicks fmt perm tasks nows st = st.
Proof.
  induction nows as [|now nows IH]; intros H; [reflexivity|].
  rewrite runTicks_cons, H by (by left). apply IH.
  intros now' Hin. apply H. by right.
Qed.

Lemma tick_not_granted perm (tasks : list Task) st now :
  perm <> PermGranted -> tick fmt perm tasks st now = st.
Proof. intros Hp. unfold tick. by destruct (decide (perm = PermGranted)). Qed.

Lemma runTicks_not_granted perm (tasks : list Task) nows st :
  perm <> PermGranted -> runTicks fmt perm tasks nows st = st.
Proof.
  intros Hp. apply runTicks_unchanged. intros now _.
  by apply tick_not_granted.
Qed.

(** ** The design's protocol against the source's loops *)

Lemma inBand_eqb (W m : Z) : inBand W m = (m =? W).
Proof.
  unfold inBand.
  destruct (Z.ltb_spec (W - 1) m), (Z.leb_spec m W), (Z.eqb_spec m W);
    first [ reflexivity | lia ].
Qed.

Lemma inBand_true (W m : Z) : inBand W m = true <-> W - 1 < m <= W.
Proof. rewrite inBand_eqb, Z.eqb_eq. lia. Qed.

Lemma thresholds_levels : thresholds.*2 = NOTIFICATION_LEVELS.
Proof. reflexivity. Qed.

Lemma thresholds_configured (W : Z) (level : Level) :
  (W, level) ∈ thresholds ->
  level ∈ NOTIFICATION_LEVELS /\
  (thresholdMinutes level == inject_Z W)%Q /\ windowMinutes level = W.
Proof.
  unfold thresholds. rewrite !elem_of_cons, elem_of_nil.
  intros [[= -> ->]|[[= -> ->]|[[= -> ->]|[[= -> ->]|[[= -> ->]|[]]]]]];
    (split; [unfold NOTIFICATION_LEVELS; set_solver | by vm_compute]).
Qed.

Lemma thresholds_whole :
  Forall (fun p => (thresholdMinutes p.2 == inject_Z p.1)%Q) thresholds.
Proof.
  apply Forall_forall. intros [W level] Hp.
  by destruct (thresholds_configured W level Hp) as (_ & HW & _).
Qed.

(** One threshold of the protocol is one turn of the source's first loop. *)
Lemma protocol_step (t : Task) (d m W : Z) (level : Level) (s : State) :
  (thresholdMinutes level == inject_Z W)%Q ->
  checkLevel fmt PermGranted t (Some d) (Some m) s level =
    if inBand W m && shouldFire s t level
    then record t level (notify (reminder fmt t (Some d) level) s)
    else s.
Proof.
  intros HW. unfold checkLevel, shouldFire, record, notify.
  rewrite (inWindow_eqb m W level HW), inBand_eqb.
  destruct (m =? W); [|reflexivity]. simpl.
  destruct (decide (notificationKey t level ∈ notified s)) as [Hin|Hin].
  - by rewrite bool_decide_eq_false_2 by (intros Hn; by apply Hn).
  - by rewrite bool_decide_eq_true_2.
Qed.

Lemma protocol_loop (t : Task) (d m : Z) (pairs : list (Z * Level)) :
  Forall (fun p => (thresholdMinutes p.2 == inject_Z p.1)%Q) pairs ->
  forall s,
    foldl (checkLevel fmt PermGranted t (Some d) (Some m)) s (pairs.*2) =
    foldl (fun st p =>
             if inBand p.1 m && shouldFire st t p.2
             then record t p.2 (notify (reminder fmt t (Some d) p.2) st)
             else st) s pairs.
Proof.
  induction 1 as [|[W level] pairs HW _ IH]; intros s; [reflexivity|].
  simpl. rewrite IH. f_equal. by apply protocol_step.
Qed.

(** The design's prune and the source's second loop take the same keys out. *)
Lemma prune_notified (t : Task) (st : State) (k : string) :
  k ∈ notified (prune t st) <->
  k ∈ notified st /\ forall level, level ∈ NOTIFICATION_LEVELS -> k <> notificationKey t level.
Proof.
  unfold prune. cbn [notified].
  rewrite elem_of_difference, elem_of_list_to_set, list_elem_of_fmap.
  split; intros [Hk Hn]; (split; [exact Hk|]).
  - intros level Hl ->. apply Hn.
    rewrite <- thresholds_levels in Hl. apply list_elem_of_fmap in Hl as [p [-> Hp]].
    by exists p.
  - intros [[W level] [-> Hp]]. apply (Hn level); [|reflexivity].
    by destruct (thresholds_configured W level Hp).
Qed.

Lemma prune_cleanUp (t : Task) (st : State) :
  prune t st = cleanUp NOTIFICATION_LEVELS t st.
Proof.
  assert (notified (prune t st) = notified (cleanUp NOTIFICATION_LEVELS t st)) as H.
  { apply set_eq. intros k. by rewrite prune_notified, cleanUp_notified. }
  destruct (prune t st) as [n s] eqn:E. cbn [notified] in H. subst n.
  unfold prune in E. injection E as _ <-. reflexivity.
Qed.

End Facts.

(** ** The window band *)

(** C2: for a task with a due date and each configured threshold, of
    [W] = 300, 120, 60, 30 or 10 minutes, the threshold is in window at [now]
    exactly when [minutesRemaining = floor((dueAt - now) / 60000)] satisfies
    [W - 1 < minutesRemaining <= W]; the band is stated both on the source's
    product [level.hours * 60] and on its whole number of minutes [W].
    The threshold's turn in the firing loop follows the band: inside it the
    reminder is created and the pair recorded unless the pair is recorded
    already, outside it the turn does nothing, so the threshold does not
    fire. *)
Theorem inWindow_half_open_band (fmt : option Z -> string) (t : Task)
    (due now : Z) (st : State) (W : Z) (level : Level) :
  (W, level) ∈ zip [300; 120; 60; 30; 10] NOTIFICATION_LEVELS ->
  let m := (due - now) / 60000 in
  minutesLeft (Some due) now = Some m /\
  (thresholdMinutes level == inject_Z W)%Q /\
  windowMinutes level = W /\
  (inWindow (minutesLeft (Some due) now) level = true <->
     (thresholdMinutes level - 1 < inject_Z m)%Q /\
     (inject_Z m <= thresholdMinutes level)%Q) /\
  (inWindow (minutesLeft (Some due) now) level = true <-> W - 1 < m <= W) /\
  checkLevel fmt PermGranted t (Some due) (minutesLeft (Some due) now) st level =
    (if decide (W - 1 < m <= W) then
       if decide (notificationKey t level ∈ notified st) then st
       else {| notified := {[ notificationKey t level ]} ∪ notified st;
               shown := shown st ++ [reminder fmt t (Some due) level] |}
     else st).
Proof.
  intros Hp m.
  change (zip [300; 120; 60; 30; 10] NOTIFICATION_LEVELS) with thresholds in Hp.
  destruct (thresholds_configured W level Hp) as (Hl & HW & HwM).
  change (minutesLeft (Some due) now) with (Some m).
  split; [reflexivity|]. split; [exact HW|]. split; [exact HwM|].
  split; [apply inWindow_iff|].
  pose proof (inWindow_whole m W level HW) as Hband.
  split; [exact Hband|].
  destruct (decide (W - 1 < m <= W)) as [Hin|Hout].
  - apply checkLevel_in. by apply Hband.
  - apply checkLevel_out. destruct (inWindow (Some m) level); [|reflexivity].
    destruct Hout. by apply Hband.
Qed.

Lemma inWindow_half_open_band_witness :
  let t := sampleTask "a" (DueText (Some 1800000)) in
  let fmt := fun _ : option Z => "" in
  (30, level_30m) ∈ zip [300; 120; 60; 30; 10] NOTIFICATION_LEVELS /\
  inWindow (minutesLeft (Some 1800000) 59999) level_30m = false /\
  inWindow (minutesLeft (Some 1800000) 0) level_30m = true /\
  checkLevel fmt PermGranted t (Some 1800000) (minutesLeft (Some 1800000) 0)
    initialState level_30m =
    {| notified := {[ notificationKey t level_30m ]} ∪ ∅;
       shown := [reminder fmt t (Some 1800000) level_30m] |} /\
  checkLevel fmt PermGranted t (Some 1800000) (minutesLeft (Some 1800000) 59999)
    initialState level_30m = initialState /\
  checkLevel fmt PermGranted t (Some 1800000) (minutesLeft (Some 1800000) (-60000))
    initialState level_30m = initialState.
Proof.
  intros t fmt.
  assert ((30, level_30m) ∈ zip [300; 120; 60; 30; 10] NOTIFICATION_LEVELS) as Hp.
  { unfold NOTIFICATION_LEVELS. simpl. rewrite !elem_of_cons. tauto. }
  split; [exact Hp|]. split; [reflexivity|].
  destruct (inWindow_half_open_band fmt t 1800000 0 initialState 30 level_30m Hp)
    as (_ & _ & _ & _ & Hband & Hfire).
  destruct (inWindow_half_open_band fmt t 1800000 59999 initialState 30 level_30m Hp)
    as (_ & _ & _ & _ & _ & Hlate).
  destruct (inWindow_half_open_band fmt t 1800000 (-60000) initialState 30 level_30m Hp)
    as (_ & _ & _ & _ & _ & Hearly).
  split; [apply Hband; by vm_compute|].
  split; [|split].
  - rewrite Hfire. rewrite decide_True by (by vm_compute).
    rewrite decide_False by (simpl; set_solver). reflexivity.
  - rewrite Hlate. rewrite decide_False; [reflexivity|].
    change ((1800000 - 59999) / 60000) with 29. lia.
  - rewrite Hearly. rewrite decide_False; [reflexivity|].
    change ((1800000 - -60000) / 60000) with 31. lia.
Defined.

(** ** Pruning and firing in one turn *)

(** C5: within a tick, a task's turn is the turn of the protocol that prunes
    first, for every state, task and clock reading.  When the minutes
    remaining exceed the cutoff (300), every ledger entry of the task is
    removed, every other entry stays, and no notification is created; only
    otherwise are the thresholds evaluated against the ledger: a threshold
    whose band holds the minutes remaining ends recorded, and its reminder is
    created exactly when the pair was not recorded before.  The source runs
    its firing loop first and its clean-up loop second; beyond 300 minutes no
    band holds the minutes remaining, so the firing loop does nothing there
    and the outcome is the protocol's. *)
Theorem checkTask_refines_protocol (fmt : option Z -> string) (now : Z)
    (st : State) (t : Task) :
  checkTask fmt PermGranted now st t = protocolTask fmt 300 now st t /\
  (forall dueAt, dueUtc t = DueText (Some dueAt) ->
     300 < minutesRemaining dueAt now ->
     shown (checkTask fmt PermGranted now st t) = shown st /\
     (forall W level, (W, level) ∈ thresholds ->
        notificationKey t level ∉ notified (checkTask fmt PermGranted now st t)) /\
     (forall k, (forall W level, (W, level) ∈ thresholds -> k <> notificationKey t level) ->
        (k ∈ notified (checkTask fmt PermGranted now st t) <-> k ∈ notified st))) /\
  (forall dueAt W level, dueUtc t = DueText (Some dueAt) ->
     minutesRemaining dueAt now <= 300 ->
     (W, level) ∈ thresholds ->
     W - 1 < minutesRemaining dueAt now <= W ->
     notificationKey t level ∈ notified (checkTask fmt PermGranted now st t) /\
     shown (checkTask fmt PermGranted now st t) =
       if decide (notificationKey t level ∈ notified st) then shown st
       else shown st ++ [reminder fmt t (Some dueAt) level]).
Proof.
  split; [|split].
  - unfold protocolTask.
    destruct (dueUtc t) as [|[dueAt|]] eqn:Hd.
    + unfold checkTask, checkTaskWith. by rewrite Hd.
    + cbv zeta. unfold minutesRemaining.
      destruct (Z.ltb_spec 300 ((dueAt - now) / 60000)) as [Hfar|Hnear].
      * rewrite (checkTask_far fmt t dueAt _ now st Hd eq_refl Hfar).
        symmetry. apply prune_cleanUp.
      * rewrite <- (protocol_loop fmt t dueAt _ thresholds thresholds_whole st).
        rewrite thresholds_levels.
        unfold checkTask, checkTaskWith. rewrite Hd. cbv zeta.
        change (minutesLeft (Some dueAt) now) with (Some ((dueAt - now) / 60000)).
        unfold isFar. change (5 * 60) with 300.
        by destruct (Z.ltb_spec 300 ((dueAt - now) / 60000)); [lia|].
    + unfold checkTask, checkTaskWith. rewrite Hd. cbv zeta.
      change (minutesLeft None now) with (@None Z).
      by rewrite checkLevels_none.
  - intros dueAt Hd Hfar. unfold minutesRemaining in Hfar.
    rewrite (checkTask_far fmt t dueAt _ now st Hd eq_refl Hfar).
    split; [reflexivity|]. split.
    + intros W level Hp Hin. apply cleanUp_notified in Hin as [_ Hn].
      destruct (thresholds_configured W level Hp) as (Hl & _).
      by apply (Hn level Hl).
    + intros k Hk. rewrite cleanUp_notified. split; [tauto|].
      intros Hin. split; [exact Hin|]. intros level Hl.
      rewrite <- thresholds_levels in Hl.
      apply list_elem_of_fmap in Hl as [[W level'] [-> Hp]].
      by apply (Hk W level').
  - intros dueAt W level Hd Hnear Hp Hband. unfold minutesRemaining in *.
    destruct (thresholds_configured W level Hp) as (Hl & HW & _).
    assert (inWindow (Some ((dueAt - now) / 60000)) level = true) as Hw
      by (by apply (inWindow_whole _ W level HW)).
    rewrite (checkTask_at fmt t dueAt _ now st level Hd eq_refl Hl Hw).
    destruct (decide (notificationKey t level ∈ notified st)) as [Hin|Hin].
    + by split.
    + split; [simpl; set_solver | reflexivity].
Qed.

Lemma checkTask_refines_protocol_witness :
  let fmt := fun _ : option Z => "" in
  let far := sampleTask "a" (DueText (Some 36000000)) in
  let near := sampleTask "a" (DueText (Some 1800000)) in
  let st := {| notified := {[ notificationKey far level_30m ]}; shown := [] |} in
  notificationKey far level_30m ∈ notified st /\
  notificationKey far level_30m ∉ notified (checkTask fmt PermGranted 0 st far) /\
  shown (checkTask fmt PermGranted 0 st far) = [] /\
  notificationKey near level_30m ∈ notified (checkTask fmt PermGranted 0 initialState near) /\
  shown (checkTask fmt PermGranted 0 initialState near)
  = [reminder fmt near (Some 1800000) level_30m] /\
  shown (checkTask fmt PermGranted 0 st near) = [].
Proof.
  intros fmt far near st.
  assert ((30, level_30m) ∈ thresholds) as Hp
    by (unfold thresholds; rewrite !elem_of_cons; tauto).
  destruct (checkTask_refines_protocol fmt 0 st far) as (_ & Hfar & _).
  destruct (Hfar 36000000 eq_refl) as (Hshown & Hgone & _); [by vm_compute|].
  destruct (checkTask_refines_protocol fmt 0 initialState near) as (_ & _ & Hnear).
  destruct (Hnear 1800000 30 level_30m eq_refl) as (Hrec & Hfire);
    [by vm_compute | exact Hp | by vm_compute |].
  destruct (checkTask_refines_protocol fmt 0 st near) as (_ & _ & Hdup).
  destruct (Hdup 1800000 30 level_30m eq_refl) as (_ & Hquiet);
    [by vm_compute | exact Hp | by vm_compute |].
  split; [simpl; set_solver|].
  split; [exact (Hgone 30 level_30m Hp)|].
  split; [exact Hshown|].
  split; [exact Hrec|].
  split.
  - rewrite Hfire. rewrite decide_False by (simpl; set_solver). reflexivity.
  - rewrite Hquiet. rewrite decide_True by (simpl; set_solver). reflexivity.
Defined.

(** C10: pruning is per task: when a task's turn prunes because its minutes
    left exceed 300, the ledger membership of every pair of another task id
    is unchanged. *)
Theorem prune_keeps_other_tasks (fmt : option Z -> string) (t t' : Task)
    (d now : Z) (st : State) (level' : Level) :
  dueUtc t = DueText (Some d) ->
  300 < (d - now) / 60000 ->
  id t' <> id t ->
  level' ∈ NOTIFICATION_LEVELS ->
  checkTask fmt PermGranted now st t = cleanUp NOTIFICATION_LEVELS t st /\
  (notificationKey t' level' ∈ notified (checkTask fmt PermGranted now st t) <->
   notificationKey t' level' ∈ notified st).
Proof.
  intros Hd Hfar Hne Hl'. split.
  - by apply (checkTask_far fmt t d ((d - now) / 60000) now st).
  - assert (id t <> id t') as Hne' by congruence.
    destruct (checkTask_frame fmt t' t now st Hne') as [_ H].
    by destruct (H level' Hl').
Qed.

Lemma prune_keeps_other_tasks_witness :
  let t := sampleTask "a" (DueText (Some 36000000)) in
  let t' := sampleTask "b" (DueText (Some 600000)) in
  let st := {| notified := {[ notificationKey t level_2h;
                              notificationKey t' level_10m ]};
               shown := [] |} in
  300 < (36000000 - 0) / 60000 /\
  notificationKey t' level_10m ∈ notified (checkTask plainTime PermGranted 0 st t).
Proof.
  intros t t' st. split; [by vm_compute|].
  destruct (prune_keeps_other_tasks plainTime t t' 36000000 0 st level_10m)
    as [_ [_ H]].
  - reflexivity.
  - vm_compute. reflexivity.
  - discriminate.
  - unfold NOTIFICATION_LEVELS. set_solver.
  - apply H. simpl. set_solver.
Defined.

(** ** Permission *)

(** C9: when the notification capability is unavailable (the permission
    stays "default") or the permission is not granted, a tick is a no-op:
    nothing is shown and the ledger is not touched, for every set of active
    tasks and every clock reading, over any number of ticks. *)
Theorem tick_without_permission (fmt : option Z -> string) (perm : Permission)
    (tasks : list Task) (nows : list Z) (st : State) :
  perm <> PermGranted ->
  (forall now, tick fmt perm tasks st now = st) /\
  runTicks fmt perm tasks nows st = st.
Proof.
  intros Hp. split.
  - intros now. by apply tick_not_granted.
  - by apply runTicks_not_granted.
Qed.

Lemma tick_without_permission_witness :
  let t := sampleTask "a" (DueText (Some 1800000)) in
  runTicks plainTime PermDenied [t] [0; 1000; 2000] initialState = initialState /\
  shown (runTicks plainTime PermGranted [t] [0; 1000; 2000] initialState)
  = [reminder plainTime t (Some 1800000) level_30m].
Proof.
  intros t. split.
  - destruct (tick_without_permission plainTime PermDenied [t] [0; 1000; 2000]
                initialState) as [_ H]; [discriminate | exact H].
  - by vm_compute.
Defined.

(** ** Tasks that never notify *)

(** C8: a task whose due date is absent is skipped silently: its turn
    changes nothing, and over any number of ticks no notification is created
    for it and no ledger entry of its is created (or removed). *)
Theorem no_due_date_no_dispatch (fmt : option Z -> string) (perm : Permission)
    (tasks : list Task) (t : Task) (nows : list Z) (st : State) :
  NoDup (id <$> tasks) -> t ∈ tasks ->
  dueUtc t = DueMissing ->
  (forall p now s, checkTask fmt p now s t = s) /\
  shownToTask (id t) (runTicks fmt perm tasks nows st) = shownToTask (id t) st /\
  (forall level, level ∈ NOTIFICATION_LEVELS ->
     dispatches t level (runTicks fmt perm tasks nows st) = dispatches t level st /\
     (notificationKey t level ∈ notified (runTicks fmt perm tasks nows st) <->
      notificationKey t level ∈ notified st)).
Proof.
  intros Hnd Hin Hd.
  assert (forall p now s, checkTask fmt p now s t = s) as Hskip.
  { intros p now s. unfold checkTask, checkTaskWith. by rewrite Hd. }
  split; [exact Hskip|].
  assert (agree t (runTicks fmt perm tasks nows st) st) as [H1 H2].
  { destruct (decide (perm = PermGranted)) as [->|Hp].
    - eapply agree_trans; [apply runTicks_local; [done|done|apply agree_refl]|].
      rewrite runTicks_unchanged; [apply agree_refl|].
      intros now _. rewrite tick_single. apply Hskip.
    - rewrite (runTicks_not_granted fmt perm tasks nows st Hp).
      apply agree_refl. }
  split; [exact H1|]. intros level Hl. destruct (H2 level Hl) as [H3 H4].
  split; [|exact H4]. unfold dispatches. by rewrite H3.
Qed.

Lemma no_due_date_no_dispatch_witness :
  let t := sampleTask "a" DueMissing in
  let u := sampleTask "b" (DueText (Some 1800000)) in
  shownToTask "a" (runTicks plainTime PermGranted [t; u] [0; 60000] initialState)
  = [] /\
  shown (runTicks plainTime PermGranted [t; u] [0; 60000] initialState)
  = [reminder plainTime u (Some 1800000) level_30m].
Proof.
  intros t u. split; [|by vm_compute].
  destruct (no_due_date_no_dispatch plainTime PermGranted [t; u] t [0; 60000]
              initialState) as [_ [H _]].
  - simpl. apply NoDup_cons. split; [set_solver|]. apply NoDup_singleton.
  - by left.
  - reflexivity.
  - exact H.
Defined.

(** C7: once [minutesRemaining <= 0] no configured threshold is in window
    for the task, and no notification is created for it at that tick or at
    any later tick while its due date is unchanged, whatever the ledger
    holds (thresholds that never fired stay unfired). *)
Theorem overdue_no_dispatch (fmt : option Z -> string) (tasks : list Task)
    (t : Task) (d now0 : Z) (nows : list Z) (st : State) :
  NoDup (id <$> tasks) -> t ∈ tasks ->
  dueUtc t = DueText (Some d) ->
  (d - now0) / 60000 <= 0 ->
  Forall (fun now => now0 <= now) nows ->
  Forall (fun now => forall level, level ∈ NOTIFICATION_LEVELS ->
            inWindow (minutesLeft (Some d) now) level = false) nows /\
  shownToTask (id t) (runTicks fmt PermGranted tasks nows st)
  = shownToTask (id t) st /\
  (forall level, level ∈ NOTIFICATION_LEVELS ->
     dispatches t level (runTicks fmt PermGranted tasks nows st)
     = dispatches t level st).
Proof.
  intros Hnd Hin Hd Hover Hlater.
  assert (forall now, now ∈ nows -> (d - now) / (1000 * 60) <= 0) as Hz.
  { intros now Hnow. rewrite Forall_forall in Hlater.
    specialize (Hlater now Hnow). change (1000 * 60) with 60000.
    etransitivity; [|exact Hover]. apply Z.div_le_mono; lia. }
  assert (forall now level, now ∈ nows -> level ∈ NOTIFICATION_LEVELS ->
            (d - now) / (1000 * 60) <> windowMinutes level) as Hout.
  { intros now level Hnow Hl. specialize (Hz now Hnow).
    destruct (configured_whole level Hl) as [_ HW]. lia. }
  split.
  - apply Forall_forall. intros now Hnow level Hl.
    change (minutesLeft (Some d) now) with (Some ((d - now) / (1000 * 60))).
    rewrite (inWindow_configured _ level Hl). apply Z.eqb_neq. by apply Hout.
  - assert (agree t (runTicks fmt PermGranted tasks nows st) st) as [H1 H2].
    { eapply agree_trans; [apply runTicks_local; [done|done|apply agree_refl]|].
      rewrite runTicks_unchanged; [apply agree_refl|].
      intros now Hnow. rewrite tick_single.
      apply (checkTask_idle fmt t d _ now st Hd eq_refl).
      - specialize (Hz now Hnow). lia.
      - apply firingLevel_None. intros level Hl. by apply Hout. }
    split; [exact H1|]. intros level Hl. destruct (H2 level Hl) as [H3 _].
    unfold dispatches. by rewrite H3.
Qed.

Lemma overdue_no_dispatch_witness :
  let t := sampleTask "a" (DueText (Some 600000)) in
  shown (runTicks plainTime PermGranted [t] [600000; 660000; 720000]
           initialState) = [] /\
  shownToTask "a" (runTicks plainTime PermGranted [t] [600000; 660000; 720000]
                     initialState) = [].
Proof.
  intros t. split; [by vm_compute|].
  destruct (overdue_no_dispatch plainTime [t] t 600000 600000
              [600000; 660000; 720000] initialState) as [_ [H _]].
  - apply NoDup_singleton.
  - by left.
  - reflexivity.
  - vm_compute. discriminate.
  - repeat (constructor; [lia|]). constructor.
  - exact H.
Defined.

(** ** Deduplication inside a window *)

Lemma dispatches_fire (t : Task) (level : Level) (s : gset string)
    (n : Notification) (st : State) :
  n_tag n = notificationKey t level ->
  dispatches t level {| notified := s; shown := shown st ++ [n] |}
  = S (dispatches t level st).
Proof.
  intros Hn. unfold dispatches, shownWithTag. simpl.
  rewrite filter_app, filter_cons_True by exact Hn.
  rewrite length_app. simpl. lia.
Qed.

(** A tick at which the task is in the window of [level]: the pair is
    recorded afterwards, and one reminder is created exactly when it was not
    recorded before. *)
Lemma tick_in_window (fmt : option Z -> string) (tasks : list Task) (t : Task)
    (d now : Z) (level : Level) (st : State) :
  NoDup (id <$> tasks) -> t ∈ tasks ->
  dueUtc t = DueText (Some d) ->
  level ∈ NOTIFICATION_LEVELS ->
  inWindow (minutesLeft (Some d) now) level = true ->
  notificationKey t level ∈ notified (tick fmt PermGranted tasks st now) /\
  dispatches t level (tick fmt PermGranted tasks st now)
  = if decide (notificationKey t level ∈ notified st)
    then dispatches t level st else S (dispatches t level st).
Proof.
  intros Hnd Hin Hd Hl Hw. rewrite tick_granted.
  pose proof (checkNotifications_local fmt t tasks now st Hnd Hin) as Hag.
  rewrite (agree_dispatches t _ _ level Hag Hl).
  destruct Hag as [_ Hag]. destruct (Hag level Hl) as [_ ->].
  rewrite (checkTask_at fmt t d _ now st level Hd eq_refl Hl Hw).
  destruct (decide (notificationKey t level ∈ notified st)) as [Hk|Hk].
  - by split.
  - split; [simpl; set_solver|]. by apply dispatches_fire.
Qed.

Lemma runTicks_in_window_recorded (fmt : option Z -> string)
    (tasks : list Task) (t : Task) (d : Z) (level : Level) (nows : list Z)
    (st : State) :
  NoDup (id <$> tasks) -> t ∈ tasks ->
  dueUtc t = DueText (Some d) ->
  level ∈ NOTIFICATION_LEVELS ->
  Forall (fun now => inWindow (minutesLeft (Some d) now) level = true) nows ->
  notificationKey t level ∈ notified st ->
  notificationKey t level ∈ notified (runTicks fmt PermGranted tasks nows st) /\
  dispatches t level (runTicks fmt PermGranted tasks nows st)
  = dispatches t level st.
Proof.
  intros Hnd Hin Hd Hl Hall. revert st.
  induction Hall as [|now nows Hw Hall IH]; intros st Hk; [by split|].
  rewrite runTicks_cons.
  destruct (tick_in_window fmt tasks t d now level st Hnd Hin Hd Hl Hw)
    as [Hk' Hc].
  rewrite decide_True in Hc by exact Hk.
  destruct (IH _ Hk') as [Hk'' Hc']. split; [exact Hk''|congruence].
Qed.

(** C1: for a task with a fixed due date and a configured threshold, ticks
    run at clock readings that all stay inside the threshold's one-minute
    window create exactly one notification for the pair: the first tick
    fires and records it, and every later tick finds the pair in the ledger
    and does not fire again.  The pair is not in the ledger when the window
    is entered, and task ids are distinct. *)
Theorem no_duplicate_fire_within_window (fmt : option Z -> string)
    (tasks : list Task) (t : Task) (d : Z) (level : Level)
    (now1 : Z) (nows : list Z) (st : State) :
  NoDup (id <$> tasks) -> t ∈ tasks ->
  dueUtc t = DueText (Some d) ->
  level ∈ NOTIFICATION_LEVELS ->
  Forall (fun now => inWindow (minutesLeft (Some d) now) level = true)
    (now1 :: nows) ->
  notificationKey t level ∉ notified st ->
  dispatches t level (runTicks fmt PermGranted tasks (now1 :: nows) st)
  = S (dispatches t level st) /\
  dispatches t level (tick fmt PermGranted tasks st now1)
  = S (dispatches t level st) /\
  (forall before now after, nows = before ++ now :: after ->
     let st' := runTicks fmt PermGranted tasks (now1 :: before) st in
     notificationKey t level ∈ notified st' /\
     dispatches t level (tick fmt PermGranted tasks st' now)
     = dispatches t level st').
Proof.
  intros Hnd Hin Hd Hl Hall Hfresh.
  apply Forall_cons in Hall as [Hw1 Hall].
  destruct (tick_in_window fmt tasks t d now1 level st Hnd Hin Hd Hl Hw1)
    as [Hk1 Hc1].
  rewrite decide_False in Hc1 by exact Hfresh.
  split; [|split; [exact Hc1|]].
  - rewrite runTicks_cons.
    destruct (runTicks_in_window_recorded fmt tasks t d level nows _
                Hnd Hin Hd Hl Hall Hk1) as [_ ->]. exact Hc1.
  - intros before now after -> st'. subst st'.
    apply Forall_app in Hall as [Hbefore Hrest].
    apply Forall_cons in Hrest as [Hw _].
    rewrite runTicks_cons.
    destruct (runTicks_in_window_recorded fmt tasks t d level before _
                Hnd Hin Hd Hl Hbefore Hk1) as [Hk _].
    split; [exact Hk|].
    destruct (tick_in_window fmt tasks t d now level
                (runTicks fmt PermGranted tasks before
                   (tick fmt PermGranted tasks st now1))
                Hnd Hin Hd Hl Hw) as [_ Hc].
    by rewrite decide_True in Hc by exact Hk.
Qed.

Lemma no_duplicate_fire_within_window_witness :
  let t := sampleTask "a" (DueText (Some 1859999)) in
  let u := sampleTask "b" (DueText (Some 7200000)) in
  dispatches t level_30m
    (runTicks plainTime PermGranted [t; u] [0; 20000; 40000; 59999] initialState)
  = 1%nat.
Proof.
  intros t u.
  destruct (no_duplicate_fire_within_window plainTime [t; u] t 1859999
              level_30m 0 [20000; 40000; 59999] initialState) as [H _].
  - simpl. apply NoDup_cons. split; [set_solver|]. apply NoDup_singleton.
  - by left.
  - reflexivity.
  - unfold NOTIFICATION_LEVELS. set_solver.
  - repeat (constructor; [vm_compute; reflexivity|]). constructor.
  - simpl. set_solver.
  - exact H.
Defined.

(** ** The far cutoff *)

Lemma checkTaskWith_far_clears (fmt : option Z -> string) (table : list Level)
    (t : Task) (d now : Z) (st : State) (level : Level) :
  dueUtc t = DueText (Some d) -> 300 < (d - now) / 60000 ->
  level ∈ table ->
  notificationKey t level ∉ notified (checkTaskWith fmt PermGranted table now st t).
Proof.
  intros Hd Hfar Hl. unfold checkTaskWith. rewrite Hd. cbv zeta.
  unfold minutesLeft, isFar. change (5 * 60) with 300.
  change (1000 * 60) with 60000.
  destruct (Z.ltb_spec 300 ((d - now) / 60000)); [|lia].
  rewrite cleanUp_notified. intros [_ Hk]. by apply (Hk level Hl).
Qed.

Lemma tick_far (fmt : option Z -> string) (tasks : list Task) (t : Task)
    (d now : Z) (level : Level) (st : State) :
  NoDup (id <$> tasks) -> t ∈ tasks ->
  dueUtc t = DueText (Some d) -> 300 < (d - now) / 60000 ->
  level ∈ NOTIFICATION_LEVELS ->
  (notificationKey t level ∉ notified (tick fmt PermGranted tasks st now)) /\
  dispatches t level (tick fmt PermGranted tasks st now) = dispatches t level st.
Proof.
  intros Hnd Hin Hd Hfar Hl. rewrite tick_granted.
  pose proof (checkNotifications_local fmt t tasks now st Hnd Hin) as Hag.
  rewrite (agree_dispatches t _ _ level Hag Hl).
  destruct Hag as [_ Hag]. destruct (Hag level Hl) as [_ ->].
  split; [by apply (checkTaskWith_far_clears fmt _ t d)|].
  by rewrite (checkTask_far fmt t d _ now st Hd eq_refl Hfar).
Qed.

(** C6: a tick at which a task's minutes left exceed 300 removes every
    ledger entry of the task, whichever were set; the cutoff is the constant
    300 whatever threshold table is walked; and a pair that fired before the
    due date was pushed past the cutoff fires again once the due date is
    back inside that threshold's window. *)
Theorem far_cutoff_prunes_then_refires (fmt : option Z -> string)
    (tasks1 tasks2 : list Task) (t1 t2 : Task) (d1 d2 now1 now2 : Z)
    (level : Level) (st : State) :
  NoDup (id <$> tasks1) -> t1 ∈ tasks1 ->
  dueUtc t1 = DueText (Some d1) -> 300 < (d1 - now1) / 60000 ->
  NoDup (id <$> tasks2) -> t2 ∈ tasks2 -> id t2 = id t1 ->
  dueUtc t2 = DueText (Some d2) ->
  level ∈ NOTIFICATION_LEVELS ->
  inWindow (minutesLeft (Some d2) now2) level = true ->
  let st1 := tick fmt PermGranted tasks1 st now1 in
  let st2 := tick fmt PermGranted tasks2 st1 now2 in
  (forall level', level' ∈ NOTIFICATION_LEVELS ->
     notificationKey t1 level' ∉ notified st1) /\
  (forall table s level', level' ∈ table ->
     notificationKey t1 level' ∉ notified (checkTaskWith fmt PermGranted table now1 s t1)) /\
  dispatches t2 level st2 = S (dispatches t2 level st) /\
  notificationKey t2 level ∈ notified st2.
Proof.
  intros Hnd1 Hin1 Hd1 Hfar Hnd2 Hin2 Hid Hd2 Hl Hw st1 st2.
  assert (forall level', level' ∈ NOTIFICATION_LEVELS ->
            notificationKey t1 level' ∉ notified st1) as Hclear.
  { intros level' Hl'.
    by destruct (tick_far fmt tasks1 t1 d1 now1 level' st Hnd1 Hin1 Hd1 Hfar Hl'). }
  split; [exact Hclear|]. split.
  { intros table s level' Hl'. by apply (checkTaskWith_far_clears fmt table t1 d1). }
  assert (notificationKey t2 level = notificationKey t1 level) as Hkey
    by (unfold notificationKey; by rewrite Hid).
  assert (forall s, dispatches t2 level s = dispatches t1 level s) as Hdisp
    by (intros s; unfold dispatches; by rewrite Hkey).
  destruct (tick_in_window fmt tasks2 t2 d2 now2 level st1 Hnd2 Hin2 Hd2 Hl Hw)
    as [Hk Hc].
  fold st2 in Hk, Hc. split; [|exact Hk].
  rewrite decide_False in Hc by (rewrite Hkey; by apply Hclear).
  rewrite Hc, !Hdisp. f_equal. subst st1.
  by destruct (tick_far fmt tasks1 t1 d1 now1 level st Hnd1 Hin1 Hd1 Hfar Hl).
Qed.

Lemma far_cutoff_prunes_then_refires_witness :
  let before := sampleTask "a" (DueText (Some 1200000)) in
  let pushed := sampleTask "a" (DueText (Some 36000000)) in
  let back := sampleTask "a" (DueText (Some 7260000)) in
  let st := {| notified := {[ notificationKey before level_2h ]};
               shown := [reminder plainTime before (Some 1200000) level_2h] |} in
  dispatches before level_2h st = 1%nat /\
  dispatches back level_2h
    (tick plainTime PermGranted [back]
       (tick plainTime PermGranted [pushed] st 0) 60000) = 2%nat.
Proof.
  intros before pushed back st.
  assert (dispatches before level_2h st = 1%nat) as H1 by (by vm_compute).
  split; [exact H1|].
  destruct (far_cutoff_prunes_then_refires plainTime [pushed] [back] pushed back
              36000000 7260000 0 60000 level_2h st) as [_ [_ [H _]]].
  - apply NoDup_singleton.
  - by left.
  - reflexivity.
  - by vm_compute.
  - apply NoDup_singleton.
  - by left.
  - reflexivity.
  - reflexivity.
  - unfold NOTIFICATION_LEVELS. set_solver.
  - by vm_compute.
  - rewrite H. exact (f_equal S H1).
Defined.

(** ** The notification tag *)

(** C4, as the code has it: the tag of the reminder fired for a (task,
    threshold) pair is ["task-" + taskId + "-" + hours], where [hours] is
    the threshold's size in hours as a template literal prints it (5, 2, 1,
    0.5, 0.16666666666666666); it is the ledger key of the pair. *)
Theorem dedupTag_is_key_in_hours (fmt : option Z -> string) (t : Task)
    (d now : Z) (level : Level) (st : State) :
  dueUtc t = DueText (Some d) ->
  level ∈ NOTIFICATION_LEVELS ->
  inWindow (minutesLeft (Some d) now) level = true ->
  notificationKey t level ∉ notified st ->
  shown (checkTask fmt PermGranted now st t)
  = shown st ++ [reminder fmt t (Some d) level] /\
  n_tag (reminder fmt t (Some d) level)
  = "task-" +:+ id t +:+ "-" +:+ hoursText level /\
  n_tag (reminder fmt t (Some d) level) = notificationKey t level /\
  hoursText <$> NOTIFICATION_LEVELS = ["5"; "2"; "1"; "0.5"; "0.16666666666666666"].
Proof.
  intros Hd Hl Hw Hfresh.
  rewrite (checkTask_at fmt t d _ now st level Hd eq_refl Hl Hw).
  rewrite decide_False by exact Hfresh. by repeat split.
Qed.

Lemma dedupTag_is_key_in_hours_witness :
  let t := sampleTask "a" (DueText (Some 1800000)) in
  n_tag <$> shown (checkTask plainTime PermGranted 0 initialState t) = ["task-a-0.5"].
Proof.
  intros t.
  destruct (dedupTag_is_key_in_hours plainTime t 1800000 0 level_30m
              initialState) as [H _].
  - reflexivity.
  - unfold NOTIFICATION_LEVELS. set_solver.
  - by vm_compute.
  - simpl. set_solver.
  - rewrite H. reflexivity.
Defined.

(** The tag carries the hours, not the window in minutes: the 30-minute
    reminder of task [a] is tagged [task-a-0.5], not [task-a-30]. *)
Lemma dedupTag_window_minutes_counterexample :
  let t := sampleTask "a" (DueText (Some 1800000)) in
  let n := reminder plainTime t (Some 1800000) level_30m in
  shown (tick plainTime PermGranted [t] initialState 0) = [n] /\
  windowMinutes level_30m = 30 /\
  designDedupTag (id t) (windowMinutes level_30m) = "task-a-30" /\
  n_tag n = "task-a-0.5" /\
  n_tag n <> designDedupTag (id t) (windowMinutes level_30m).
Proof.
  intros t n. repeat split; try (by vm_compute).
Qed.

(** ** Six hours, minute by minute *)

Lemma cleanUp_absent (levels : list Level) (t : Task) (st : State) :
  (forall level, level ∈ levels -> notificationKey t level ∉ notified st) ->
  cleanUp levels t st = st.
Proof.
  destruct st as [s sh]. unfold cleanUp. simpl. intros Habs. f_equal.
  induction levels as [|level levels IH]; simpl; [reflexivity|].
  assert (s ∖ {[ notificationKey t level ]} = s) as ->.
  { apply set_eq. intros k. rewrite elem_of_difference, elem_of_singleton.
    split; [tauto|]. intros Hk. split; [exact Hk|]. intros ->.
    apply (Habs level); [by left | exact Hk]. }
  apply IH. intros level' Hl'. apply Habs. by right.
Qed.

Section SixHours.

Variable fmt : option Z -> string.
Variable t : Task.
Variable start : Z.
Hypothesis Hdue : dueUtc t = DueText (Some (start + 21600000)).

Lemma minutes_at (k : nat) :
  minutesLeft (Some (start + 21600000)) (start + 60000 * Z.of_nat k)
  = Some (360 - Z.of_nat k).
Proof.
  unfold minutesLeft. f_equal. change (1000 * 60) with 60000.
  replace (start + 21600000 - (start + 60000 * Z.of_nat k))
    with ((360 - Z.of_nat k) * 60000) by lia.
  apply Z.div_mul. lia.
Qed.

(** Minutes [a], [a + 1], ... that are all beyond the cutoff, on a ledger
    that holds nothing of the task. *)
Lemma far_stretch (a len : nat) (st : State) :
  (Z.of_nat (a + len) <= 60) ->
  (forall level, level ∈ NOTIFICATION_LEVELS ->
     notificationKey t level ∉ notified st) ->
  runTicks fmt PermGranted [t]
    ((fun k => start + 60000 * Z.of_nat k) <$> seq a len) st = st.
Proof.
  intros Hk Habs. apply runTicks_unchanged. intros now Hnow.
  apply list_elem_of_fmap in Hnow as [k [-> Hin]]. apply elem_of_seq in Hin.
  rewrite tick_single.
  rewrite (checkTask_far fmt t _ _ _ st Hdue (minutes_at k)) by lia.
  by apply cleanUp_absent.
Qed.

(** Minutes strictly between two thresholds, or after the last one. *)
Lemma quiet_stretch (a len : nat) (st : State) :
  (forall k : nat, (a <= k < a + len)%nat ->
     60 < Z.of_nat k /\ Z.of_nat k <> 240 /\ Z.of_nat k <> 300 /\
     Z.of_nat k <> 330 /\ Z.of_nat k <> 350) ->
  runTicks fmt PermGranted [t]
    ((fun k => start + 60000 * Z.of_nat k) <$> seq a len) st = st.
Proof.
  intros Hk. apply runTicks_unchanged. intros now Hnow.
  apply list_elem_of_fmap in Hnow as [k [-> Hin]]. apply elem_of_seq in Hin.
  rewrite tick_single. specialize (Hk k Hin).
  apply (checkTask_idle fmt t _ _ _ st Hdue (minutes_at k)); [lia|].
  unfold firingLevel.
  repeat match goal with
         | |- context [?x =? ?y] => destruct (Z.eqb_spec x y); [lia|]
         end.
  reflexivity.
Qed.

(** The minute at which the band of [level] is reached for the first time. *)
Lemma fire_minute (k : nat) (level : Level) (st : State) :
  level ∈ NOTIFICATION_LEVELS ->
  360 - Z.of_nat k = windowMinutes level ->
  notificationKey t level ∉ notified st ->
  runTicks fmt PermGranted [t]
    ((fun k => start + 60000 * Z.of_nat k) <$> seq k 1) st
  = {| notified := {[ notificationKey t level ]} ∪ notified st;
       shown := shown st ++ [reminder fmt t (Some (start + 21600000)) level] |}.
Proof.
  intros Hl Hk Hfresh. simpl. unfold runTicks. simpl. rewrite tick_single.
  rewrite (checkTask_at fmt t _ _ _ st level Hdue (minutes_at k) Hl).
  - by rewrite decide_False.
  - rewrite (inWindow_configured _ level Hl). by apply Z.eqb_eq.
Qed.

End SixHours.

Ltac configured_level :=
  unfold NOTIFICATION_LEVELS; rewrite !elem_of_cons; tauto.

Ltac fresh_key :=
  simpl; rewrite ?elem_of_union, ?elem_of_singleton; intros Hk;
  repeat (destruct Hk as [Hk|Hk]);
  first [ by apply elem_of_empty in Hk
        | apply notificationKey_inj in Hk as [_ Hk];
          [discriminate Hk | configured_level | configured_level] ].

(** The task alone, from a fresh state, over at least 351 minutes. *)
Lemma six_hours_alone (fmt : option Z -> string) (t : Task) (start : Z)
    (r : nat) :
  dueUtc t = DueText (Some (start + 21600000)) ->
  shown (runTicks fmt PermGranted [t] (minuteByMinute start (351 + r))
           initialState)
  = reminder fmt t (Some (start + 21600000)) <$> NOTIFICATION_LEVELS.
Proof.
  intros Hdue. unfold minuteByMinute.
  replace (351 + r)%nat
    with (60 + (1 + (179 + (1 + (59 + (1 + (29 + (1 + (19 + (1 + r))))))))))%nat
    by lia.
  rewrite !seq_app, !fmap_app, !runTicks_app. simpl Nat.add.
  rewrite (far_stretch fmt t start Hdue 0 60 initialState);
    [|lia|intros level _; apply not_elem_of_empty].
  rewrite (fire_minute fmt t start Hdue 60 level_5h);
    [|configured_level|reflexivity|fresh_key].
  rewrite (quiet_stretch fmt t start Hdue 61 179) by (intros k Hk; lia).
  rewrite (fire_minute fmt t start Hdue 240 level_2h);
    [|configured_level|reflexivity|fresh_key].
  rewrite (quiet_stretch fmt t start Hdue 241 59) by (intros k Hk; lia).
  rewrite (fire_minute fmt t start Hdue 300 level_1h);
    [|configured_level|reflexivity|fresh_key].
  rewrite (quiet_stretch fmt t start Hdue 301 29) by (intros k Hk; lia).
  rewrite (fire_minute fmt t start Hdue 330 level_30m);
    [|configured_level|reflexivity|fresh_key].
  rewrite (quiet_stretch fmt t start Hdue 331 19) by (intros k Hk; lia).
  rewrite (fire_minute fmt t start Hdue 350 level_10m);
    [|configured_level|reflexivity|fresh_key].
  rewrite (quiet_stretch fmt t start Hdue 351 r) by (intros k Hk; lia).
  reflexivity.
Qed.

(** C3: a task due 6 hours (21 600 000 ms) after [start], ticked minute by
    minute until it is overdue, gets exactly one notification per configured
    threshold, five in all for the table 300, 120, 60, 30, 10, and they are
    created in descending order of window size. *)
Theorem six_hours_each_threshold_once (fmt : option Z -> string)
    (tasks : list Task) (t : Task) (start : Z) (n : nat) :
  NoDup (id <$> tasks) -> t ∈ tasks ->
  dueUtc t = DueText (Some (start + 21600000)) ->
  (361 < n)%nat ->
  let final :=
    runTicks fmt PermGranted tasks (minuteByMinute start n) initialState in
  shownToTask (id t) final
  = reminder fmt t (Some (start + 21600000)) <$> NOTIFICATION_LEVELS /\
  windowMinutes <$> NOTIFICATION_LEVELS = [300; 120; 60; 30; 10] /\
  length (shownToTask (id t) final) = 5%nat /\
  (forall level, level ∈ NOTIFICATION_LEVELS ->
     dispatches t level final = 1%nat).
Proof.
  intros Hnd Hin Hdue Hn final.
  assert (agree t final
            (runTicks fmt PermGranted [t] (minuteByMinute start n) initialState))
    as [Hshown Hlevels]
    by (apply runTicks_local; [done | done | apply agree_refl]).
  replace n with (351 + (n - 351))%nat in Hshown, Hlevels by lia.
  pose proof (six_hours_alone fmt t start (n - 351) Hdue) as Halone.
  assert (shownToTask (id t) final
          = reminder fmt t (Some (start + 21600000)) <$> NOTIFICATION_LEVELS)
    as Hall.
  { rewrite Hshown. unfold shownToTask. rewrite Halone. simpl.
    rewrite !filter_cons_True by reflexivity. by rewrite filter_nil. }
  split; [exact Hall|]. split; [reflexivity|].
  split; [by rewrite Hall|].
  intros level Hl. unfold dispatches. destruct (Hlevels level Hl) as [-> _].
  unfold shownWithTag. rewrite Halone. revert Hl.
  unfold NOTIFICATION_LEVELS. rewrite !elem_of_cons, elem_of_nil.
  intros [->|[->|[->|[->|[->|[]]]]]]; simpl fmap;
    repeat first
      [ rewrite filter_cons_True by reflexivity
      | rewrite filter_cons_False
          by (simpl; intros Hk; apply notificationKey_inj in Hk as [_ Hk];
              [discriminate Hk | configured_level | configured_level]) ];
    by rewrite filter_nil.
Qed.

Lemma six_hours_each_threshold_once_witness :
  let t := sampleTask "a" (DueText (Some (1000 + 21600000))) in
  let u := sampleTask "b" DueMissing in
  n_tag <$> shownToTask "a"
    (runTicks plainTime PermGranted [u; t] (minuteByMinute 1000 362) initialState)
  = ["task-a-5"; "task-a-2"; "task-a-1"; "task-a-0.5";
     "task-a-0.16666666666666666"].
Proof.
  intros t u.
  destruct (six_hours_each_threshold_once plainTime [u; t] t 1000 362)
    as [H _].
  - simpl. apply NoDup_cons. split; [set_solver|]. apply NoDup_singleton.
  - right. by left.
  - reflexivity.
  - lia.
  - change (id t) with "a" in H. rewrite H. reflexivity.
Defined.

(** * Further properties of the reminder engine *)

Section EngineMore.

Variable fmt : option Z -> string.

Lemma shownWithTag_fire (k : string) (n : Notification) (s : gset string)
    (st : State) :
  n_tag n <> k ->
  shownWithTag k {| notified := s; shown := shown st ++ [n] |}
  = shownWithTag k st.
Proof.
  intros Hne. unfold shownWithTag. simpl.
  rewrite filter_app, filter_cons_False by exact Hne.
  by rewrite filter_nil, app_nil_r.
Qed.

Lemma checkTask_invalid (p : Permission) (t : Task) (now : Z) (st : State) :
  dueUtc t = DueText None -> checkTask fmt p now st t = st.
Proof.
  intros Hd. unfold checkTask, checkTaskWith. rewrite Hd. cbv zeta.
  change (minutesLeft None now) with (@None Z).
  induction NOTIFICATION_LEVELS as [|level levels IH] in st |- *; [reflexivity|].
  simpl. simpl in IH. apply IH.
Qed.

(** A turn at which [level] is not in window: no reminder of the pair is
    created, the pair is not added, and it is dropped only beyond the cutoff. *)
Lemma checkTask_out_window (t : Task) (d now : Z) (st : State) (level : Level) :
  dueUtc t = DueText (Some d) -> level ∈ NOTIFICATION_LEVELS ->
  inWindow (minutesLeft (Some d) now) level = false ->
  let st' := checkTask fmt PermGranted now st t in
  shownWithTag (notificationKey t level) st'
  = shownWithTag (notificationKey t level) st /\
  (notificationKey t level ∈ notified st' ->
   notificationKey t level ∈ notified st) /\
  (isFar (minutesLeft (Some d) now) = false ->
   notificationKey t level ∈ notified st ->
   notificationKey t level ∈ notified st').
Proof.
  intros Hd Hl Hw st'. subst st'.
  rewrite (checkTask_due fmt t d _ now st Hd eq_refl).
  change (minutesLeft (Some d) now) with (Some ((d - now) / (1000 * 60))) in *.
  unfold isFar. change (5 * 60) with 300.
  set (z := (d - now) / (1000 * 60)) in *.
  destruct (Z.ltb_spec 300 z) as [Hfar|Hnear].
  - split; [reflexivity|]. split; [|discriminate].
    rewrite cleanUp_notified. tauto.
  - destruct (firingLevel z) as [level'|] eqn:E; [|tauto].
    apply firingLevel_Some in E as [Hl' Hz].
    assert (level' <> level) as Hne.
    { intros ->. rewrite (inWindow_configured z level Hl) in Hw.
      apply Z.eqb_neq in Hw. done. }
    assert (notificationKey t level' <> notificationKey t level) as Hk
      by (by apply notificationKey_ne_level).
    unfold checkLevel. destruct (inWindow (Some z) level'); [|tauto].
    destruct (decide (notificationKey t level' ∈ notified st)); [tauto|].
    split; [by apply (shownWithTag_fire _ (reminder fmt t (Some d) level') _ st)|].
    simpl.
    rewrite elem_of_union, elem_of_singleton. split; [|tauto].
    intros [Heq|Hin]; [by destruct Hk|exact Hin].
Qed.

(** A turn of a task that is not beyond the cutoff keeps a recorded pair
    recorded and creates no reminder for it. *)
Lemma checkTask_near_recorded (t : Task) (now : Z) (st : State) (level : Level) :
  isFar (taskMinutesLeft t now) = false -> level ∈ NOTIFICATION_LEVELS ->
  notificationKey t level ∈ notified st ->
  notificationKey t level ∈ notified (checkTask fmt PermGranted now st t) /\
  shownWithTag (notificationKey t level) (checkTask fmt PermGranted now st t)
  = shownWithTag (notificationKey t level) st.
Proof.
  unfold taskMinutesLeft. intros Hnear Hl Hk.
  destruct (dueUtc t) as [|[d|]] eqn:Hd.
  - unfold checkTask, checkTaskWith. by rewrite Hd.
  - destruct (inWindow (minutesLeft (Some d) now) level) eqn:Hw.
    + rewrite (checkTask_at fmt t d _ now st level Hd eq_refl Hl Hw).
      by rewrite decide_True by exact Hk.
    + destruct (checkTask_out_window t d now st level Hd Hl Hw)
        as [Hs [_ Hkeep]].
      split; [by apply Hkeep | exact Hs].
  - by rewrite (checkTask_invalid PermGranted t now st Hd).
Qed.

End EngineMore.

Section EngineRuns.

Variable fmt : option Z -> string.

Lemma runSnapshots_cons perm (tasks : list Task) (now : Z) snaps st :
  runSnapshots fmt perm ((tasks, now) :: snaps) st
  = runSnapshots fmt perm snaps (tick fmt perm tasks st now).
Proof. reflexivity. Qed.

Lemma runSnapshots_fixed perm (tasks : list Task) (nows : list Z) st :
  runSnapshots fmt perm ((fun now => (tasks, now)) <$> nows) st
  = runTicks fmt perm tasks nows st.
Proof.
  revert st. induction nows as [|now nows IH]; intros st; [reflexivity|].
  rewrite fmap_cons, runSnapshots_cons, runTicks_cons. apply IH.
Qed.

(** With distinct ids, what a tick does to a pair of [t] is what the turn
    of [t] does to it. *)
Lemma tick_pair_local (t : Task) (tasks : list Task) (now : Z) (st : State)
    (level : Level) :
  NoDup (id <$> tasks) -> t ∈ tasks -> level ∈ NOTIFICATION_LEVELS ->
  shownWithTag (notificationKey t level) (tick fmt PermGranted tasks st now)
  = shownWithTag (notificationKey t level) (checkTask fmt PermGranted now st t) /\
  (notificationKey t level ∈ notified (tick fmt PermGranted tasks st now) <->
   notificationKey t level ∈ notified (checkTask fmt PermGranted now st t)).
Proof.
  intros Hnd Hin Hl. rewrite tick_granted.
  destruct (checkNotifications_local fmt t tasks now st Hnd Hin) as [_ H].
  exact (H level Hl).
Qed.

(** A tick over tasks none of which carries the id of [t]. *)
Lemma tick_absent perm (t : Task) (tasks : list Task) (now : Z) (st : State) :
  (forall t', t' ∈ tasks -> id t' <> id t) ->
  agree t (tick fmt perm tasks st now) st.
Proof.
  intros Habs. destruct (decide (perm = PermGranted)) as [->|Hp].
  - rewrite tick_granted. by apply checkNotifications_frame.
  - rewrite tick_not_granted by exact Hp. apply agree_refl.
Qed.

(** Either no task of the list carries the id of [t], or exactly one... *)
Lemma same_id_or_absent (t : Task) (tasks : list Task) :
  (exists t', t' ∈ tasks /\ id t' = id t) \/
  (forall t', t' ∈ tasks -> id t' <> id t).
Proof.
  destruct (decide (id t ∈ id <$> tasks)) as [Hin|Hout].
  - left. apply list_elem_of_fmap in Hin as [t' [Heq Hin]]. eauto.
  - right. intros t' Hin Heq. apply Hout. rewrite <- Heq.
    by apply list_elem_of_fmap_2.
Qed.

Lemma key_same_id (t t' : Task) (level : Level) :
  id t' = id t -> notificationKey t' level = notificationKey t level.
Proof. unfold notificationKey. by intros ->. Qed.

(** A tick at which no task with the id of [t] is beyond the cutoff keeps a
    recorded pair of that id recorded and creates no reminder for it. *)
Lemma tick_near_recorded (t : Task) (tasks : list Task) (now : Z) (st : State)
    (level : Level) :
  NoDup (id <$> tasks) ->
  (forall t', t' ∈ tasks -> id t' = id t ->
     isFar (taskMinutesLeft t' now) = false) ->
  level ∈ NOTIFICATION_LEVELS ->
  notificationKey t level ∈ notified st ->
  notificationKey t level ∈ notified (tick fmt PermGranted tasks st now) /\
  shownWithTag (notificationKey t level) (tick fmt PermGranted tasks st now)
  = shownWithTag (notificationKey t level) st.
Proof.
  intros Hnd Hnear Hl Hk.
  destruct (same_id_or_absent t tasks) as [[t' [Hin Hid]]|Habs].
  - rewrite <- !(key_same_id t t' level Hid) in *.
    destruct (tick_pair_local t' tasks now st level Hnd Hin Hl) as [-> ->].
    apply checkTask_near_recorded; [by apply Hnear | done | done].
  - destruct (tick_absent PermGranted t tasks now st Habs) as [_ H].
    destruct (H level Hl) as [-> ->]. done.
Qed.

End EngineRuns.

(** X1: a task whose [dueUtc] string does not parse (Invalid Date, [NaN]
    minutes left) is skipped like one without a due date: its turn changes
    nothing, whatever the ledger holds, and no run creates a notification
    for it or touches a ledger entry of its; it is not pruned either. *)
Theorem invalid_due_date_skipped (fmt : option Z -> string) (perm : Permission)
    (tasks : list Task) (t : Task) (nows : list Z) (st : State) :
  NoDup (id <$> tasks) -> t ∈ tasks ->
  dueUtc t = DueText None ->
  (forall p now s, checkTask fmt p now s t = s) /\
  shownToTask (id t) (runTicks fmt perm tasks nows st) = shownToTask (id t) st /\
  (forall level, level ∈ NOTIFICATION_LEVELS ->
     dispatches t level (runTicks fmt perm tasks nows st) = dispatches t level st /\
     (notificationKey t level ∈ notified (runTicks fmt perm tasks nows st) <->
      notificationKey t level ∈ notified st)).
Proof.
  intros Hnd Hin Hd.
  assert (forall p now s, checkTask fmt p now s t = s) as Hskip
    by (intros p now s; by apply checkTask_invalid).
  split; [exact Hskip|].
  assert (agree t (runTicks fmt perm tasks nows st) st) as [H1 H2].
  { destruct (decide (perm = PermGranted)) as [->|Hp].
    - eapply agree_trans; [apply runTicks_local; [done|done|apply agree_refl]|].
      rewrite runTicks_unchanged; [apply agree_refl|].
      intros now _. rewrite tick_single. apply Hskip.
    - rewrite (runTicks_not_granted fmt perm tasks nows st Hp).
      apply agree_refl. }
  split; [exact H1|]. intros level Hl. destruct (H2 level Hl) as [H3 H4].
  split; [|exact H4]. unfold dispatches. by rewrite H3.
Qed.

Lemma invalid_due_date_skipped_witness :
  shownToTask "a"
    (runTicks plainTime PermGranted
       [sampleTask "a" (DueText None); sampleTask "b" (DueText (Some 1800000))]
       [0; 60000] initialState) = [].
Proof.
  destruct (invalid_due_date_skipped plainTime PermGranted
              [sampleTask "a" (DueText None);
               sampleTask "b" (DueText (Some 1800000))]
              (sampleTask "a" (DueText None)) [0; 60000] initialState)
    as [_ [H _]].
  - simpl. apply NoDup_cons. split; [set_solver|]. apply NoDup_singleton.
  - by left.
  - reflexivity.
  - exact H.
Defined.

(** X2: a recorded pair is never fired again while the task stays within
    the cutoff: over any sequence of ticks, with any edits of the task list
    and of the due date in between, in which no task of that id has more
    than 300 minutes left at a tick, the pair stays in the ledger and no
    further reminder is created for it, also when an edit brings the task
    back into the very window. *)
Theorem recorded_pair_not_refired_within_cutoff (fmt : option Z -> string)
    (snaps : list (list Task * Z)) (t : Task) (level : Level) (st : State) :
  Forall (fun snap =>
            NoDup (id <$> fst snap) /\
            forall t', t' ∈ fst snap -> id t' = id t ->
              isFar (taskMinutesLeft t' (snd snap)) = false) snaps ->
  level ∈ NOTIFICATION_LEVELS ->
  notificationKey t level ∈ notified st ->
  notificationKey t level ∈ notified (runSnapshots fmt PermGranted snaps st) /\
  dispatches t level (runSnapshots fmt PermGranted snaps st)
  = dispatches t level st.
Proof.
  intros Hall Hl. revert st.
  induction Hall as [|[tasks now] snaps [Hnd Hnear] Hall IH]; intros st Hk;
    [by split|].
  rewrite runSnapshots_cons. simpl in Hnd, Hnear.
  destruct (tick_near_recorded fmt t tasks now st level Hnd Hnear Hl Hk)
    as [Hk' Hs].
  destruct (IH _ Hk') as [Hk'' Hc]. split; [exact Hk''|].
  rewrite Hc. unfold dispatches. by rewrite Hs.
Qed.

Lemma recorded_pair_not_refired_within_cutoff_witness :
  dispatches (sampleTask "a" DueMissing) level_30m
    (runSnapshots plainTime PermGranted
       [([sampleTask "a" (DueText (Some 1740000))], 0);
        ([sampleTask "a" (DueText (Some 1920000))], 60000);
        ([sampleTask "a" (DueText (Some 1920000))], 120000)]
       {| notified := {[ notificationKey (sampleTask "a" DueMissing) level_30m ]};
          shown := [] |})
  = 0%nat.
Proof.
  destruct (recorded_pair_not_refired_within_cutoff plainTime
       [([sampleTask "a" (DueText (Some 1740000))], 0);
        ([sampleTask "a" (DueText (Some 1920000))], 60000);
        ([sampleTask "a" (DueText (Some 1920000))], 120000)]
       (sampleTask "a" DueMissing) level_30m
       {| notified := {[ notificationKey (sampleTask "a" DueMissing) level_30m ]};
          shown := [] |}) as [_ H].
  - repeat (constructor;
      [split; [apply NoDup_singleton|];
       intros t' ->%list_elem_of_singleton _; reflexivity|]).
    constructor.
  - unfold NOTIFICATION_LEVELS. set_solver.
  - simpl. set_solver.
  - exact H.
Defined.

(** X3: a task that is no longer in the active list (completed or deleted)
    gets nothing: over any sequence of ticks in which no task carries its
    id, no notification is created for that id, and its ledger entries are
    neither added nor removed (they stay until the page is reloaded). *)
Theorem absent_task_untouched (fmt : option Z -> string) (perm : Permission)
    (snaps : list (list Task * Z)) (t : Task) (st : State) :
  Forall (fun snap => forall t', t' ∈ fst snap -> id t' <> id t) snaps ->
  shownToTask (id t) (runSnapshots fmt perm snaps st) = shownToTask (id t) st /\
  (forall level, level ∈ NOTIFICATION_LEVELS ->
     dispatches t level (runSnapshots fmt perm snaps st) = dispatches t level st /\
     (notificationKey t level ∈ notified (runSnapshots fmt perm snaps st) <->
      notificationKey t level ∈ notified st)).
Proof.
  intros Hall.
  assert (agree t (runSnapshots fmt perm snaps st) st) as [H1 H2].
  { revert st. induction Hall as [|[tasks now] snaps Habs Hall IH]; intros st;
      [apply agree_refl|].
    rewrite runSnapshots_cons.
    eapply agree_trans; [apply IH|]. by apply tick_absent. }
  split; [exact H1|]. intros level Hl. destruct (H2 level Hl) as [H3 H4].
  split; [|exact H4]. unfold dispatches. by rewrite H3.
Qed.

Lemma absent_task_untouched_witness :
  shownToTask "a"
    (runSnapshots plainTime PermGranted
       [([sampleTask "b" (DueText (Some 1800000))], 0); ([], 60000)]
       initialState) = [].
Proof.
  destruct (absent_task_untouched plainTime PermGranted
       [([sampleTask "b" (DueText (Some 1800000))], 0); ([], 60000)]
       (sampleTask "a" DueMissing) initialState) as [H _].
  - constructor; [intros t' ->%list_elem_of_singleton; discriminate|].
    constructor; [intros t' Hin; by apply elem_of_nil in Hin|]. constructor.
  - exact H.
Defined.

(** X4: distinct ids matter.  When two active tasks carry the same id (an
    imported backup is prepended without any check on ids), one in the
    window of a threshold and the later one beyond the cutoff, the second
    one's clean-up erases the key the first one has just recorded: every
    tick fires the reminder again. *)
Theorem duplicate_id_refires_every_tick (fmt : option Z -> string)
    (t1 t2 : Task) (d1 d2 : Z) (level : Level) (nows : list Z) (st : State) :
  id t2 = id t1 ->
  dueUtc t1 = DueText (Some d1) -> dueUtc t2 = DueText (Some d2) ->
  level ∈ NOTIFICATION_LEVELS ->
  Forall (fun now => inWindow (minutesLeft (Some d1) now) level = true /\
                     300 < (d2 - now) / 60000) nows ->
  notificationKey t1 level ∉ notified st ->
  dispatches t1 level (runTicks fmt PermGranted [t1; t2] nows st)
  = (dispatches t1 level st + length nows)%nat /\
  notificationKey t1 level ∉ notified (runTicks fmt PermGranted [t1; t2] nows st).
Proof.
  intros Hid Hd1 Hd2 Hl Hall. revert st.
  induction Hall as [|now nows [Hw Hfar] Hall IH]; intros st Hfresh.
  - simpl. split; [lia | exact Hfresh].
  - rewrite runTicks_cons.
    assert (tick fmt PermGranted [t1; t2] st now
            = cleanUp NOTIFICATION_LEVELS t2
                {| notified := {[ notificationKey t1 level ]} ∪ notified st;
                   shown := shown st ++ [reminder fmt t1 (Some d1) level] |})
      as Htick.
    { rewrite tick_granted. unfold checkNotifications. simpl foldl.
      rewrite (checkTask_at fmt t1 d1 _ now st level Hd1 eq_refl Hl Hw).
      rewrite decide_False by exact Hfresh.
      by apply (checkTask_far fmt t2 d2 ((d2 - now) / 60000) now). }
    rewrite Htick.
    destruct (IH (cleanUp NOTIFICATION_LEVELS t2
                {| notified := {[ notificationKey t1 level ]} ∪ notified st;
                   shown := shown st ++ [reminder fmt t1 (Some d1) level] |}))
      as [Hc Hk].
    + rewrite cleanUp_notified. intros [_ Hne].
      apply (Hne level Hl). symmetry. by apply key_same_id.
    + split; [|exact Hk]. rewrite Hc. simpl length.
      assert (dispatches t1 level
                (cleanUp NOTIFICATION_LEVELS t2
                   {| notified := {[ notificationKey t1 level ]} ∪ notified st;
                      shown := shown st ++ [reminder fmt t1 (Some d1) level] |})
              = S (dispatches t1 level st)) as ->; [|lia].
      unfold dispatches, shownWithTag, cleanUp. simpl shown.
      rewrite filter_app, filter_cons_True by reflexivity.
      rewrite length_app. simpl. lia.
Qed.

Lemma duplicate_id_refires_every_tick_witness :
  dispatches (sampleTask "a" (DueText (Some 1859999))) level_30m
    (runTicks plainTime PermGranted
       [sampleTask "a" (DueText (Some 1859999));
        sampleTask "a" (DueText (Some 36000000))]
       [0; 20000; 40000] initialState) = 3%nat.
Proof.
  destruct (duplicate_id_refires_every_tick plainTime
              (sampleTask "a" (DueText (Some 1859999)))
              (sampleTask "a" (DueText (Some 36000000)))
              1859999 36000000 level_30m [0; 20000; 40000] initialState)
    as [H _].
  - reflexivity.
  - reflexivity.
  - reflexivity.
  - unfold NOTIFICATION_LEVELS. set_solver.
  - repeat (constructor; [split; [by vm_compute | by vm_compute]|]).
    constructor.
  - simpl. set_solver.
  - exact H.
Defined.

(** X5: a tick only appends to the notifications, and what it appends
    splits task by task, in the order of the list: the turn of each task
    appends at most one notification, which is then the reminder of that
    task for a configured threshold that is in window at that tick.  With
    permission not granted the tick appends nothing. *)
Theorem tick_appends_at_most_one_per_task (fmt : option Z -> string)
    (perm : Permission) (tasks : list Task) (now : Z) (st : State) :
  exists parts : list (list Notification),
    shown (tick fmt perm tasks st now) = shown st ++ concat parts /\
    (perm <> PermGranted -> concat parts = []) /\
    (length (concat parts) <= length tasks)%nat /\
    Forall2 (fun t part =>
               (length part <= 1)%nat /\
               Forall (fun n => exists d level,
                         dueUtc t = DueText (Some d) /\
                         level ∈ NOTIFICATION_LEVELS /\
                         inWindow (minutesLeft (Some d) now) level = true /\
                         n_taskId n = id t /\
                         n = reminder fmt t (Some d) level) part)
            tasks parts.
Proof.
  destruct (decide (perm = PermGranted)) as [->|Hp].
  2: { exists ((fun _ => []) <$> tasks). rewrite tick_not_granted by exact Hp.
       assert (concat ((fun _ : Task => @nil Notification) <$> tasks) = []) as Hnil
         by (induction tasks as [|t tasks IH]; [reflexivity | exact IH]).
       rewrite Hnil, app_nil_r. split; [reflexivity|]. split; [done|].
       split; [simpl; lia|].
       apply Forall2_fmap_r, Forall2_same_length_lookup_2; [reflexivity|].
       intros i t t' _ _. split; [simpl; lia | constructor]. }
  rewrite tick_granted. revert st.
  induction tasks as [|t tasks IH]; intros st.
  { exists []. simpl. rewrite app_nil_r.
    split; [reflexivity|]. split; [done|]. split; [lia | constructor]. }
  rewrite checkNotifications_cons.
  assert (exists one,
            shown (checkTask fmt PermGranted now st t) = shown st ++ one /\
            (length one <= 1)%nat /\
            Forall (fun n => exists d level,
                      dueUtc t = DueText (Some d) /\
                      level ∈ NOTIFICATION_LEVELS /\
                      inWindow (minutesLeft (Some d) now) level = true /\
                      n_taskId n = id t /\
                      n = reminder fmt t (Some d) level) one)
    as [one [Hone [Hlen Hall]]].
  { destruct (dueUtc t) as [|[d|]] eqn:Hd.
    - exists []. unfold checkTask, checkTaskWith. rewrite Hd, app_nil_r.
      repeat split; [simpl; lia | constructor].
    - rewrite (checkTask_due fmt t d _ now st Hd eq_refl).
      destruct (Z.ltb_spec 300 ((d - now) / (1000 * 60))).
      { exists []. rewrite app_nil_r. repeat split; [simpl; lia|constructor]. }
      destruct (firingLevel _) as [level|] eqn:E.
      2: { exists []. rewrite app_nil_r.
           repeat split; [simpl; lia|constructor]. }
      apply firingLevel_Some in E as [Hl Hz].
      unfold checkLevel.
      destruct (inWindow (Some ((d - now) / (1000 * 60))) level) eqn:Hw.
      2: { exists []. rewrite app_nil_r.
           repeat split; [simpl; lia|constructor]. }
      destruct (decide _).
      { exists []. rewrite app_nil_r. repeat split; [simpl; lia|constructor]. }
      exists [reminder fmt t (Some d) level]. repeat split; [simpl; lia|].
      constructor; [|constructor]. exists d, level. by repeat split.
    - exists []. rewrite (checkTask_invalid fmt PermGranted t now st Hd).
      rewrite app_nil_r. repeat split; [simpl; lia | constructor]. }
  destruct (IH (checkTask fmt PermGranted now st t))
    as [rest [Hrest [_ [Hlen' Hall']]]].
  exists (one :: rest). cbn [concat]. rewrite Hrest, Hone, app_assoc.
  split; [reflexivity|]. split; [done|].
  split; [rewrite length_app; simpl; lia|].
  constructor; [by split | exact Hall'].
Qed.

Lemma runTicks_out_window (fmt : option Z -> string) (tasks : list Task)
    (t : Task) (d : Z) (level : Level) (nows : list Z) (st : State) :
  NoDup (id <$> tasks) -> t ∈ tasks ->
  dueUtc t = DueText (Some d) ->
  level ∈ NOTIFICATION_LEVELS ->
  Forall (fun now => inWindow (minutesLeft (Some d) now) level = false) nows ->
  dispatches t level (runTicks fmt PermGranted tasks nows st)
  = dispatches t level st /\
  (notificationKey t level ∈ notified (runTicks fmt PermGranted tasks nows st) ->
   notificationKey t level ∈ notified st).
Proof.
  intros Hnd Hin Hd Hl Hall. revert st.
  induction Hall as [|now nows Hw Hall IH]; intros st; [by split|].
  rewrite runTicks_cons.
  destruct (IH (tick fmt PermGranted tasks st now)) as [Hc Hk].
  destruct (tick_pair_local fmt t tasks now st level Hnd Hin Hl) as [Hs Hm].
  destruct (checkTask_out_window fmt t d now st level Hd Hl Hw) as [Hs' [Hm' _]].
  split.
  - rewrite Hc. unfold dispatches. by rewrite Hs, Hs'.
  - intros Hfin. apply Hm', Hm, Hk, Hfin.
Qed.

(** X6: a threshold fires only at a tick inside its window.  Over any run
    none of whose ticks falls in the one-minute window of a threshold (the
    page was closed, the timer drifted past it), no reminder is created for
    the pair and the pair is not recorded by the run: the reminder is not
    made up for later. *)
Theorem missed_window_never_fires (fmt : option Z -> string)
    (tasks : list Task) (t : Task) (d : Z) (level : Level) (nows : list Z)
    (st : State) :
  NoDup (id <$> tasks) -> t ∈ tasks ->
  dueUtc t = DueText (Some d) ->
  level ∈ NOTIFICATION_LEVELS ->
  Forall (fun now => inWindow (minutesLeft (Some d) now) level = false) nows ->
  dispatches t level (runTicks fmt PermGranted tasks nows st)
  = dispatches t level st /\
  (notificationKey t level ∈ notified (runTicks fmt PermGranted tasks nows st) ->
   notificationKey t level ∈ notified st).
Proof.
  intros Hnd Hin Hd Hl Hall. revert st.
  induction Hall as [|now nows Hw Hall IH]; intros st; [by split|].
  rewrite runTicks_cons.
  destruct (IH (tick fmt PermGranted tasks st now)) as [Hc Hk].
  destruct (tick_pair_local fmt t tasks now st level Hnd Hin Hl) as [Hs Hm].
  destruct (checkTask_out_window fmt t d now st level Hd Hl Hw)
    as [Hs' [Hm' _]].
  split.
  - rewrite Hc. unfold dispatches. by rewrite Hs, Hs'.
  - intros Hfin. by apply Hm', Hm, Hk.
Qed.

Lemma missed_window_never_fires_witness :
  dispatches (sampleTask "a" (DueText (Some 1860000))) level_30m
    (runTicks plainTime PermGranted [sampleTask "a" (DueText (Some 1860000))]
       [0; 60001; 120000] initialState) = 0%nat.
Proof.
  destruct (missed_window_never_fires plainTime
              [sampleTask "a" (DueText (Some 1860000))]
              (sampleTask "a" (DueText (Some 1860000))) 1860000 level_30m
              [0; 60001; 120000] initialState) as [H _].
  - apply NoDup_singleton.
  - by left.
  - reflexivity.
  - unfold NOTIFICATION_LEVELS. set_solver.
  - repeat (constructor; [by vm_compute|]). constructor.
  - exact H.
Defined.

Lemma minutesLeft_shift (d start : Z) (k : nat) :
  minutesLeft (Some d) (start + 60000 * Z.of_nat k)
  = Some ((d - start) / 60000 - Z.of_nat k).
Proof.
  unfold minutesLeft. f_equal. change (1000 * 60) with 60000.
  replace (d - (start + 60000 * Z.of_nat k))
    with (d - start + (- Z.of_nat k) * 60000) by lia.
  rewrite Z.div_add by lia. lia.
Qed.

(** X7: a timer that ticks every 60 000 ms meets every window exactly once.
    For a task first seen with [m0] whole minutes left and a configured
    threshold of [W <= m0] minutes, the tick number [m0 - W] is the only
    one in the window, and a run of more than [m0 - W] ticks creates
    exactly one reminder for a pair that was not recorded. *)
Theorem minute_timer_fires_threshold_once (fmt : option Z -> string)
    (tasks : list Task) (t : Task) (d start : Z) (level : Level) (n : nat)
    (st : State) :
  NoDup (id <$> tasks) -> t ∈ tasks ->
  dueUtc t = DueText (Some d) ->
  level ∈ NOTIFICATION_LEVELS ->
  windowMinutes level <= (d - start) / 60000 ->
  (d - start) / 60000 - windowMinutes level < Z.of_nat n ->
  notificationKey t level ∉ notified st ->
  (forall k : nat,
     inWindow (minutesLeft (Some d) (start + 60000 * Z.of_nat k)) level = true
     <-> Z.of_nat k = (d - start) / 60000 - windowMinutes level) /\
  dispatches t level (runTicks fmt PermGranted tasks (minuteByMinute start n) st)
  = S (dispatches t level st).
Proof.
  intros Hnd Hin Hd Hl HW Hn Hfresh.
  set (m0 := (d - start) / 60000) in *.
  assert (forall k : nat,
     inWindow (minutesLeft (Some d) (start + 60000 * Z.of_nat k)) level = true
     <-> Z.of_nat k = m0 - windowMinutes level) as Hiff.
  { intros k. rewrite minutesLeft_shift. fold m0.
    rewrite (inWindow_configured _ level Hl), Z.eqb_eq. lia. }
  split; [exact Hiff|].
  set (k0 := Z.to_nat (m0 - windowMinutes level)).
  unfold minuteByMinute.
  replace n with (k0 + (1 + (n - S k0)))%nat by lia.
  rewrite !seq_app, !fmap_app, !runTicks_app. simpl seq at 2. simpl fmap at 2.
  assert (forall a len,
            (forall k : nat, (a <= k < a + len)%nat -> k <> k0) ->
            Forall (fun now => inWindow (minutesLeft (Some d) now) level = false)
              ((fun k => start + 60000 * Z.of_nat k) <$> seq a len)) as Hout.
  { intros a len Hk. apply Forall_forall. intros now Hnow.
    apply list_elem_of_fmap in Hnow as [k [-> Hk']]. apply elem_of_seq in Hk'.
    destruct (inWindow _ level) eqn:E; [|reflexivity].
    apply Hiff in E. destruct (Hk k Hk'). lia. }
  destruct (runTicks_out_window fmt tasks t d level
              ((fun k => start + 60000 * Z.of_nat k) <$> seq 0 k0) st
              Hnd Hin Hd Hl) as [Hc1 Hk1]; [apply Hout; lia|].
  set (st1 := runTicks fmt PermGranted tasks
                ((fun k => start + 60000 * Z.of_nat k) <$> seq 0 k0) st) in *.
  assert (inWindow (minutesLeft (Some d) (start + 60000 * Z.of_nat (0 + k0)))
            level = true) as Hw by (apply Hiff; lia).
  destruct (tick_in_window fmt tasks t d _ level st1 Hnd Hin Hd Hl Hw)
    as [_ Hc2].
  rewrite decide_False in Hc2 by (intros Hk; by apply Hfresh, Hk1).
  rewrite runTicks_cons.
  destruct (runTicks_out_window fmt tasks t d level
              ((fun k => start + 60000 * Z.of_nat k)
                 <$> seq (0 + k0 + 1) (n - S k0))
              (tick fmt PermGranted tasks st1
                 (start + 60000 * Z.of_nat (0 + k0)))
              Hnd Hin Hd Hl) as [Hc3 _]; [apply Hout; lia|].
  rewrite <- Hc1, <- Hc2. exact Hc3.
Qed.

Lemma minute_timer_fires_threshold_once_witness :
  dispatches (sampleTask "a" (DueText (Some 7777000))) level_1h
    (runTicks plainTime PermGranted [sampleTask "a" (DueText (Some 7777000))]
       (minuteByMinute 1000 75) initialState) = 1%nat.
Proof.
  destruct (minute_timer_fires_threshold_once plainTime
              [sampleTask "a" (DueText (Some 7777000))]
              (sampleTask "a" (DueText (Some 7777000))) 7777000 1000 level_1h
              75 initialState) as [_ H].
  - apply NoDup_singleton.
  - by left.
  - reflexivity.
  - unfold NOTIFICATION_LEVELS. set_solver.
  - by vm_compute.
  - by vm_compute.
  - simpl. set_solver.
  - exact H.
Defined.

(** * The countdown *)

(** X8: for a target in the future the countdown splits the remaining time
    exactly: days, hours below 24, minutes below 60, seconds below 60 and
    less than a second left over; [totalMinutes] is the same time in whole
    minutes, and the task is not marked overdue. *)
Theorem countdown_splits_remaining_time (now tg : Z) :
  now < tg ->
  exists dd hh mm ss,
    calculateTimeLeft now (Some tg)
    = {| tl_days := Some dd; tl_hours := Some hh; tl_minutes := Some mm;
         tl_seconds := Some ss; tl_isOverdue := false;
         tl_totalMinutes := Some (dd * 1440 + hh * 60 + mm) |} /\
    0 <= dd /\ 0 <= hh < 24 /\ 0 <= mm < 60 /\ 0 <= ss < 60 /\
    dd * 86400000 + hh * 3600000 + mm * 60000 + ss * 1000 <= tg - now
      < dd * 86400000 + hh * 3600000 + mm * 60000 + ss * 1000 + 1000.
Proof.
  intros Hfut. unfold calculateTimeLeft. cbv zeta.
  destruct (Z.leb_spec (tg - now) 0) as [Hle|Hgt]; [lia|].
  set (D := tg - now) in *.
  change (1000 * 60 * 60 * 24) with 86400000.
  change (1000 * 60 * 60) with 3600000.
  change (1000 * 60) with 60000.
  rewrite !Z.rem_mod_nonneg by lia.
  exists (D / 86400000), (D mod 86400000 / 3600000),
         (D mod 3600000 / 60000), (D mod 60000 / 1000).
  split.
  - f_equal. f_equal. Z.div_mod_to_equations. lia.
  - Z.div_mod_to_equations. lia.
Qed.

Lemma countdown_splits_remaining_time_witness :
  exists dd hh mm ss,
    calculateTimeLeft 0 (Some 93784005)
    = {| tl_days := Some dd; tl_hours := Some hh; tl_minutes := Some mm;
         tl_seconds := Some ss; tl_isOverdue := false;
         tl_totalMinutes := Some (dd * 1440 + hh * 60 + mm) |} /\
    0 <= dd /\ 0 <= hh < 24 /\ 0 <= mm < 60 /\ 0 <= ss < 60 /\
    dd * 86400000 + hh * 3600000 + mm * 60000 + ss * 1000 <= 93784005 - 0
      < dd * 86400000 + hh * 3600000 + mm * 60000 + ss * 1000 + 1000.
Proof. apply (countdown_splits_remaining_time 0 93784005). lia. Defined.

(** X9: the countdown and the reminder engine read the same minutes.  For a
    due date in the future [totalMinutes] is the engine's [minutesLeft];
    from the due instant on the countdown shows 0 and "overdue" while the
    engine's minutes are zero or negative; and a configured threshold is in
    window exactly when the countdown's [totalMinutes] equals its size. *)
Theorem countdown_agrees_with_reminders (d now : Z) (level : Level) :
  level ∈ NOTIFICATION_LEVELS ->
  tl_isOverdue (useCountdown (DueText (Some d)) now) = (d - now <=? 0) /\
  tl_totalMinutes (useCountdown (DueText (Some d)) now)
  = (if d - now <=? 0 then Some 0 else minutesLeft (Some d) now) /\
  (inWindow (minutesLeft (Some d) now) level = true <->
   tl_totalMinutes (useCountdown (DueText (Some d)) now)
   = Some (windowMinutes level)).
Proof.
  intros Hl. unfold useCountdown, calculateTimeLeft. cbv zeta.
  change (minutesLeft (Some d) now) with (Some ((d - now) / (1000 * 60))).
  rewrite (inWindow_configured _ level Hl), Z.eqb_eq.
  destruct (configured_whole level Hl) as [_ HW].
  change (1000 * 60) with 60000.
  destruct (Z.leb_spec (d - now) 0) as [Hle|Hgt]; simpl.
  - repeat split; try reflexivity.
    + intros Heq. exfalso. Z.div_mod_to_equations. lia.
    + intros [= Heq]. lia.
  - repeat split; try reflexivity; [by intros -> | by intros [= ->]].
Qed.

Lemma countdown_agrees_with_reminders_witness :
  inWindow (minutesLeft (Some 1800000) 0) level_30m = true <->
  tl_totalMinutes (useCountdown (DueText (Some 1800000)) 0)
  = Some (windowMinutes level_30m).
Proof.
  destruct (countdown_agrees_with_reminders 1800000 0 level_30m) as [_ [_ H]].
  - unfold NOTIFICATION_LEVELS. set_solver.
  - exact H.
Defined.

(** X10: the label the countdown shows at the moment a reminder fires: the
    5-hour reminder finds the task "Planned", the 2-hour one "Upcoming",
    the 1-hour one "Approaching", the 30-minute one "Soon" and the
    10-minute one "Urgent". *)
Theorem label_when_reminder_fires (d now : Z) (level : Level) :
  level ∈ NOTIFICATION_LEVELS ->
  inWindow (minutesLeft (Some d) now) level = true ->
  (level, tc_label (getTimerConfig (useCountdown (DueText (Some d)) now)))
  ∈ zip NOTIFICATION_LEVELS
        ["Planned"; "Upcoming"; "Approaching"; "Soon"; "Urgent"].
Proof.
  intros Hl Hw.
  assert (tl_isOverdue (useCountdown (DueText (Some d)) now) = false /\
          tl_totalMinutes (useCountdown (DueText (Some d)) now)
          = Some (windowMinutes level)) as [Hno Ht].
  { change (minutesLeft (Some d) now) with (Some ((d - now) / (1000 * 60))) in Hw.
    rewrite (inWindow_configured _ level Hl), Z.eqb_eq in Hw.
    destruct (configured_whole level Hl) as [_ HW].
    unfold useCountdown, calculateTimeLeft. cbv zeta.
    change (1000 * 60) with 60000 in *.
    destruct (Z.leb_spec (d - now) 0) as [Hle|Hgt]; simpl.
    - exfalso. Z.div_mod_to_equations. lia.
    - by rewrite Hw. }
  unfold getTimerConfig. rewrite Hno, Ht. revert Hl.
  unfold NOTIFICATION_LEVELS. rewrite !elem_of_cons, elem_of_nil.
  intros [->|[->|[->|[->|[->|[]]]]]]; simpl; set_solver.
Qed.

Lemma label_when_reminder_fires_witness :
  (level_30m, tc_label (getTimerConfig (useCountdown (DueText (Some 1800000)) 0)))
  ∈ zip NOTIFICATION_LEVELS
        ["Planned"; "Upcoming"; "Approaching"; "Soon"; "Urgent"].
Proof.
  apply (label_when_reminder_fires 1800000 0 level_30m).
  - unfold NOTIFICATION_LEVELS. set_solver.
  - by vm_compute.
Defined.

(** X11: whatever the target and the clock, a countdown that is marked
    overdue reads "0m overdue" with the label "Overdue": the overdue branch
    of [calculateTimeLeft] stores [totalMinutes: 0], so [getTimerText] never
    shows for how long a task has been overdue and its hours branch is
    never taken. *)
Theorem overdue_text_is_always_zero (targetDate : DueUtc) (now : Z) :
  tl_isOverdue (useCountdown targetDate now) = true ->
  getTimerText (useCountdown targetDate now) = "0m overdue" /\
  tc_label (getTimerConfig (useCountdown targetDate now)) = "Overdue" /\
  exists tg, targetDate = DueText (Some tg) /\ tg <= now.
Proof.
  destruct targetDate as [|[tg|]]; simpl; try discriminate.
  unfold calculateTimeLeft. cbv zeta.
  destruct (Z.leb_spec (tg - now) 0) as [Hle|Hgt]; simpl; [|discriminate].
  intros _. repeat split. exists tg. split; [reflexivity | lia].
Qed.

Lemma overdue_text_is_always_zero_witness :
  getTimerText (useCountdown (DueText (Some 1000)) 86400000) = "0m overdue".
Proof.
  destruct (overdue_text_is_always_zero (DueText (Some 1000)) 86400000)
    as [H _]; [reflexivity | exact H].
Defined.

(** X12: urgency only grows with time.  For a fixed valid target, a later
    clock reading never shows a less pressing label: the rank along
    Planned, Upcoming, Approaching, Soon, Urgent, Overdue is monotone. *)
Theorem urgency_never_decreases (tg now1 now2 : Z) :
  now1 <= now2 ->
  le (urgencyRank (getTimerConfig (calculateTimeLeft now1 (Some tg))))
     (urgencyRank (getTimerConfig (calculateTimeLeft now2 (Some tg)))).
Proof.
  intros Hle. unfold calculateTimeLeft. cbv zeta.
  change (1000 * 60) with 60000.
  assert ((tg - now2) / 60000 <= (tg - now1) / 60000) as Hm
    by (apply Z.div_le_mono; lia).
  unfold getTimerConfig.
  destruct (Z.leb_spec (tg - now1) 0); destruct (Z.leb_spec (tg - now2) 0);
    simpl; try lia;
    repeat match goal with
           | |- context [?a <=? ?b] => destruct (Z.leb_spec a b)
           end; simpl; vm_compute; try lia; try (intros; discriminate).
Qed.

Lemma urgency_never_decreases_witness :
  le (urgencyRank (getTimerConfig (calculateTimeLeft 0 (Some 7200000))))
     (urgencyRank (getTimerConfig (calculateTimeLeft 5400000 (Some 7200000)))).
Proof. apply (urgency_never_decreases 7200000 0 5400000). lia. Defined.

(** * The task list: counters and operations *)

Lemma filter_split_length {A : Type} (P Q : A -> Prop)
    `{!forall x, Decision (P x)} `{!forall x, Decision (Q x)} (l : list A) :
  (forall x, x ∈ l -> ~ (P x /\ Q x)) ->
  (length (filter P l) + length (filter Q l) <= length l)%nat.
Proof.
  induction l as [|x l IH]; intros Hex; [simpl; lia|].
  assert (length (filter P l) + length (filter Q l) <= length l)%nat as IH'
    by (apply IH; intros y Hy; apply Hex; by right).
  assert (~ (P x /\ Q x)) as Hx by (apply Hex; by left).
  rewrite !filter_cons.
  destruct (decide (P x)); destruct (decide (Q x)); simpl; try lia; tauto.
Qed.

Lemma filter_complement_length (l : list Task) :
  (length (filter (fun t => completed t = true) l)
   + length (filter (fun t => completed t = false) l))%nat = length l.
Proof.
  induction l as [|x l IH]; [reflexivity|].
  rewrite !filter_cons.
  destruct (decide (completed x = true)) as [E|E];
    destruct (decide (completed x = false)) as [E'|E']; simpl.
  - congruence.
  - lia.
  - lia.
  - destruct (completed x); congruence.
Qed.

(** X13: the counters of the header are consistent at every instant: every
    task is either completed or active, and overdue and due-soon tasks are
    disjoint groups of the active ones (tasks without a due date, with an
    invalid one, or due later than in five hours are in neither). *)
Theorem stats_are_consistent (now : Z) (tasks : list Task) :
  stats_total tasks = (stats_completed tasks + stats_active tasks)%nat /\
  (stats_overdue now tasks + stats_dueSoon now tasks <= stats_active tasks)%nat.
Proof.
  unfold stats_total, stats_completed, stats_active, stats_overdue,
    stats_dueSoon, activeTasks. split.
  - symmetry. apply filter_complement_length.
  - apply filter_split_length. intros t _ [Ho Hs].
    unfold isOverdueAt, isDueSoonAt, numLt, numGt, numLe in *.
    destruct (dueTime t) as [d|]; [|discriminate].
    apply andb_true_iff in Hs as [Hs _].
    apply Z.ltb_lt in Ho, Hs. lia.
Qed.

(** X14: the counters and the engine's cutoff fit together.  A task counted
    overdue or due soon has a valid due date and at most 300 minutes left,
    so the clean-up of the engine never removes its ledger entries at that
    instant; an overdue one has negative minutes and is in no reminder
    window, a due-soon one has between 0 and 300 minutes left. *)
Theorem counted_tasks_are_within_cutoff (now : Z) (t : Task) :
  isOverdueAt now t = true \/ isDueSoonAt now t = true ->
  exists m,
    taskMinutesLeft t now = Some m /\
    isFar (taskMinutesLeft t now) = false /\
    (isOverdueAt now t = true ->
       m < 0 /\ forall level, level ∈ NOTIFICATION_LEVELS ->
                  inWindow (Some m) level = false) /\
    (isDueSoonAt now t = true -> 0 <= m <= 300).
Proof.
  unfold isOverdueAt, isDueSoonAt, taskMinutesLeft, dueTime, numLt, numGt, numLe.
  intros H. destruct (dueUtc t) as [|[d|]];
    [destruct H; discriminate | | destruct H; discriminate].
  exists ((d - now) / (1000 * 60)).
  unfold minutesLeft, isFar.
  change (1000 * 60) with 60000. change (5 * 60) with 300.
  change (5 * 60 * 60 * 1000) with 18000000 in *.
  assert (d < now \/ now < d <= now + 18000000) as Hc.
  { destruct H as [H|H]; [left; by apply Z.ltb_lt|right].
    apply andb_true_iff in H as [H1 H2].
    apply Z.ltb_lt in H1. apply Z.leb_le in H2. lia. }
  split; [reflexivity|]. split; [|split].
  - apply Z.ltb_ge. Z.div_mod_to_equations. lia.
  - intros Ho%Z.ltb_lt.
    assert ((d - now) / 60000 < 0) as Hneg by (Z.div_mod_to_equations; lia).
    split; [exact Hneg|]. intros level Hl.
    rewrite (inWindow_configured _ level Hl). apply Z.eqb_neq.
    destruct (configured_whole level Hl) as [_ HW]. lia.
  - intros Hs. apply andb_true_iff in Hs as [H1 H2].
    apply Z.ltb_lt in H1. apply Z.leb_le in H2.
    Z.div_mod_to_equations. lia.
Qed.

Lemma counted_tasks_are_within_cutoff_witness :
  exists m,
    taskMinutesLeft (sampleTask "a" (DueText (Some 18000000))) 0 = Some m /\
    isFar (taskMinutesLeft (sampleTask "a" (DueText (Some 18000000))) 0) = false /\
    (isOverdueAt 0 (sampleTask "a" (DueText (Some 18000000))) = true ->
       m < 0 /\ forall level, level ∈ NOTIFICATION_LEVELS ->
                  inWindow (Some m) level = false) /\
    (isDueSoonAt 0 (sampleTask "a" (DueText (Some 18000000))) = true ->
       0 <= m <= 300).
Proof.
  apply (counted_tasks_are_within_cutoff 0
           (sampleTask "a" (DueText (Some 18000000)))).
  right. reflexivity.
Defined.

Lemma runTicks_absent (fmt : option Z -> string) (perm : Permission)
    (t : Task) (tasks : list Task) (nows : list Z) (st : State) :
  (forall t', t' ∈ tasks -> id t' <> id t) ->
  agree t (runTicks fmt perm tasks nows st) st.
Proof.
  intros Habs. revert st.
  induction nows as [|now nows IH]; intros st; [apply agree_refl|].
  rewrite runTicks_cons.
  eapply agree_trans; [apply IH|]. by apply tick_absent.
Qed.

Lemma toggleComplete_ids (i : string) (tasks : list Task) :
  id <$> toggleComplete i tasks = id <$> tasks.
Proof.
  unfold toggleComplete. rewrite <- list_fmap_compose.
  apply list_fmap_ext. intros _ t _. simpl. by destruct (decide (id t = i)).
Qed.

Lemma updateTask_ids (i : string) (u : TaskUpdates) (tasks : list Task) :
  id <$> updateTask i u tasks = id <$> tasks.
Proof.
  unfold updateTask. rewrite <- list_fmap_compose.
  apply list_fmap_ext. intros _ t _. simpl. by destruct (decide (id t = i)).
Qed.

Lemma NoDup_ids_filter (P : Task -> Prop) `{!forall t, Decision (P t)}
    (tasks : list Task) :
  NoDup (id <$> tasks) -> NoDup (id <$> filter P tasks).
Proof.
  induction tasks as [|t tasks IH]; [done|].
  rewrite fmap_cons, NoDup_cons. intros [Hfresh Hnd].
  rewrite filter_cons. destruct (decide (P t)); [|by apply IH].
  rewrite fmap_cons, NoDup_cons. split; [|by apply IH].
  intros Hin. apply Hfresh.
  apply list_elem_of_fmap in Hin as [t' [-> Hin]].
  apply list_elem_of_fmap_2. by apply list_elem_of_filter in Hin as [_ Hin].
Qed.

(** X15: the operations of the list keep ids distinct.  Toggling, editing
    (an update never carries an id), deleting, clearing the completed tasks
    and taking the active tasks all preserve "no two tasks share an id", the
    condition under which the reminders are deduplicated. *)
Theorem operations_keep_ids_distinct (i : string) (u : TaskUpdates)
    (tasks : list Task) :
  NoDup (id <$> tasks) ->
  NoDup (id <$> toggleComplete i tasks) /\
  NoDup (id <$> updateTask i u tasks) /\
  NoDup (id <$> deleteTask i tasks) /\
  NoDup (id <$> clearCompleted tasks) /\
  NoDup (id <$> activeTasks tasks).
Proof.
  intros Hnd. rewrite toggleComplete_ids, updateTask_ids.
  repeat split; try exact Hnd; by apply NoDup_ids_filter.
Qed.

Lemma operations_keep_ids_distinct_witness :
  NoDup (id <$> activeTasks
           (toggleComplete "a"
              [sampleTask "a" DueMissing; sampleTask "b" DueMissing])).
Proof.
  destruct (operations_keep_ids_distinct "a"
              {| u_title := None; u_clientName := None; u_dueUtc := None |}
              (toggleComplete "a"
                 [sampleTask "a" DueMissing; sampleTask "b" DueMissing]))
    as [_ [_ [_ [_ H]]]]; [|exact H].
  simpl. apply NoDup_cons. split; [set_solver|]. apply NoDup_singleton.
Defined.

(** X16: toggling is its own inverse: toggling the same id twice gives the
    list back, every task in place, and the active tasks after re-opening
    are the ones before completing. *)
Theorem toggleComplete_twice (i : string) (tasks : list Task) :
  toggleComplete i (toggleComplete i tasks) = tasks /\
  activeTasks (toggleComplete i (toggleComplete i tasks)) = activeTasks tasks /\
  length (toggleComplete i tasks) = length tasks.
Proof.
  assert (toggleComplete i (toggleComplete i tasks) = tasks) as H.
  { unfold toggleComplete. rewrite <- list_fmap_compose.
    rewrite <- (list_fmap_id tasks) at 2.
    apply list_fmap_ext. intros _ t _. simpl.
    destruct (decide (id t = i)) as [Heq|Hne]; simpl.
    - rewrite decide_True by exact Heq. destruct t as [? ? ? ? c]; simpl.
      by rewrite negb_involutive.
    - by rewrite decide_False. }
  split; [exact H|]. split; [by rewrite H|].
  unfold toggleComplete. apply length_fmap.
Qed.

(** X17: completing a task stops its reminders.  Once an active task with a
    unique id has been toggled, no active task carries its id, so no run
    over the active tasks creates a notification for it; its ledger entries
    are neither added nor removed. *)
Theorem completed_task_gets_no_reminder (fmt : option Z -> string)
    (perm : Permission) (tasks : list Task) (t : Task) (nows : list Z)
    (st : State) :
  NoDup (id <$> tasks) -> t ∈ tasks -> completed t = false ->
  (forall t', t' ∈ activeTasks (toggleComplete (id t) tasks) -> id t' <> id t) /\
  shownToTask (id t)
    (runTicks fmt perm (activeTasks (toggleComplete (id t) tasks)) nows st)
  = shownToTask (id t) st /\
  (forall level, level ∈ NOTIFICATION_LEVELS ->
     (notificationKey t level
        ∈ notified (runTicks fmt perm
                      (activeTasks (toggleComplete (id t) tasks)) nows st) <->
      notificationKey t level ∈ notified st)).
Proof.
  intros Hnd Hin Hact.
  assert (forall t', t' ∈ activeTasks (toggleComplete (id t) tasks) ->
            id t' <> id t) as Habs.
  { intros t' Ht'. unfold activeTasks in Ht'.
    apply list_elem_of_filter in Ht' as [Hc Ht'].
    unfold toggleComplete in Ht'.
    apply list_elem_of_fmap in Ht' as [t0 [-> Ht0]].
    destruct (decide (id t0 = id t)) as [Heq|Hne]; [|exact Hne].
    simpl in Hc. exfalso.
    assert (t0 = t) as ->; [|by rewrite Hact in Hc].
    apply list_elem_of_lookup in Ht0 as [a Ha].
    apply list_elem_of_lookup in Hin as [b Hb].
    assert (a = b) as ->; [|congruence].
    eapply NoDup_lookup; [exact Hnd| |]; rewrite list_lookup_fmap.
    - by rewrite Ha.
    - rewrite Hb. simpl. by rewrite Heq. }
  split; [exact Habs|].
  destruct (runTicks_absent fmt perm t _ nows st Habs) as [H1 H2].
  split; [exact H1|]. intros level Hl. by destruct (H2 level Hl).
Qed.

Lemma completed_task_gets_no_reminder_witness :
  shownToTask "a"
    (runTicks plainTime PermGranted
       (activeTasks
          (toggleComplete "a"
             [sampleTask "a" (DueText (Some 1800000));
              sampleTask "b" (DueText (Some 1800000))]))
       [0; 60000] initialState) = [].
Proof.
  destruct (completed_task_gets_no_reminder plainTime PermGranted
              [sampleTask "a" (DueText (Some 1800000));
               sampleTask "b" (DueText (Some 1800000))]
              (sampleTask "a" (DueText (Some 1800000))) [0; 60000]
              initialState) as [_ [H _]].
  - simpl. apply NoDup_cons. split; [set_solver|]. apply NoDup_singleton.
  - by left.
  - reflexivity.
  - exact H.
Defined.

(** X18: deleting stops reminders and keeps the ledger.  [deleteTask]
    removes every task of the id and nothing else, in place; afterwards no
    run creates a notification for that id, and the ledger entries of the id
    stay as they are, so a task that comes back under the same id (an
    imported backup) does not get again the reminders already fired. *)
Theorem deleted_task_gets_no_reminder (fmt : option Z -> string)
    (perm : Permission) (tasks : list Task) (t : Task) (nows : list Z)
    (st : State) :
  (forall t', t' ∈ deleteTask (id t) tasks <-> t' ∈ tasks /\ id t' <> id t) /\
  deleteTask (id t) (deleteTask (id t) tasks) = deleteTask (id t) tasks /\
  shownToTask (id t)
    (runTicks fmt perm (activeTasks (deleteTask (id t) tasks)) nows st)
  = shownToTask (id t) st /\
  (forall level, level ∈ NOTIFICATION_LEVELS ->
     (notificationKey t level
        ∈ notified (runTicks fmt perm
                      (activeTasks (deleteTask (id t) tasks)) nows st) <->
      notificationKey t level ∈ notified st)).
Proof.
  assert (forall t', t' ∈ deleteTask (id t) tasks <->
            t' ∈ tasks /\ id t' <> id t) as Hmem.
  { intros t'. unfold deleteTask. rewrite list_elem_of_filter. tauto. }
  split; [exact Hmem|]. split.
  { unfold deleteTask. apply list_filter_filter_l. tauto. }
  assert (forall t', t' ∈ activeTasks (deleteTask (id t) tasks) ->
            id t' <> id t) as Habs.
  { intros t' Ht'. unfold activeTasks in Ht'.
    apply list_elem_of_filter in Ht' as [_ Ht'].
    by apply Hmem in Ht' as [_ Hne]. }
  destruct (runTicks_absent fmt perm t _ nows st Habs) as [H1 H2].
  split; [exact H1|]. intros level Hl. by destruct (H2 level Hl).
Qed.

(** * The next upcoming task *)

Section SortFacts.

Context {A : Type} (compare : A -> A -> Z).

Lemma elem_of_insertSorted (x y : A) (l : list A) :
  y ∈ insertSorted compare x l <-> y = x \/ y ∈ l.
Proof.
  induction l as [|z l IH]; simpl.
  - rewrite list_elem_of_singleton, elem_of_nil. tauto.
  - destruct (compare x z <=? 0).
    + rewrite !elem_of_cons. tauto.
    + rewrite !elem_of_cons, IH. tauto.
Qed.

Lemma elem_of_arraySort (y : A) (l : list A) :
  y ∈ arraySort compare l <-> y ∈ l.
Proof.
  unfold arraySort. induction l as [|x l IH]; simpl; [tauto|].
  rewrite elem_of_insertSorted, IH, elem_of_cons. tauto.
Qed.

Lemma length_insertSorted (x : A) (l : list A) :
  length (insertSorted compare x l) = S (length l).
Proof.
  induction l as [|z l IH]; simpl; [reflexivity|].
  destruct (compare x z <=? 0); simpl; [reflexivity | by rewrite IH].
Qed.

Lemma length_arraySort (l : list A) :
  length (arraySort compare l) = length l.
Proof.
  unfold arraySort. induction l as [|x l IH]; simpl; [reflexivity|].
  by rewrite length_insertSorted, IH.
Qed.

(** When the comparator is a difference of keys on the elements at hand,
    the first element of the sorted array has the least key. *)
Lemma arraySort_head_least (key : A -> Z) (P : A -> Prop) (l : list A) :
  (forall a b, P a -> P b -> compare a b = key a - key b) ->
  Forall P l ->
  forall m rest, arraySort compare l = m :: rest ->
    forall y, y ∈ l -> key m <= key y.
Proof.
  intros Hcmp. unfold arraySort.
  induction l as [|x l IH]; intros HP m rest Hs y Hy; [discriminate Hs|].
  apply Forall_cons in HP as [Hx HP]. simpl in Hs.
  fold (arraySort compare l) in *.
  assert (forall z, z ∈ arraySort compare l -> P z) as HPs.
  { intros z Hz. apply (proj1 (elem_of_arraySort z l)) in Hz.
    rewrite Forall_forall in HP. by apply HP. }
  destruct (arraySort compare l) as [|z s] eqn:Es.
  - simpl in Hs. injection Hs as <- <-.
    assert (l = []) as ->.
    { destruct l as [|w l]; [reflexivity|].
      pose proof (length_arraySort (w :: l)) as Hlen.
      unfold arraySort in Es. unfold arraySort in Hlen.
      rewrite Es in Hlen. discriminate Hlen. }
    apply list_elem_of_singleton in Hy as ->. lia.
  - assert (forall w, w ∈ l -> key z <= key w) as Hz
      by (intros w Hw; by apply (IH HP z s eq_refl)).
    assert (P z) as HPz by (apply HPs; by left).
    simpl in Hs. rewrite (Hcmp x z Hx HPz) in Hs.
    destruct (Z.leb_spec (key x - key z) 0) as [Hle|Hgt];
      injection Hs as <- <-;
      apply elem_of_cons in Hy as [->|Hy]; try lia.
    + specialize (Hz y Hy). lia.
    + by apply Hz.
Qed.

End SortFacts.

(** X19: the task shown as "next upcoming" is the earliest one.  When
    [nextUpcomingTask] yields a task, it is an active task of the list with
    a valid due date after [now], and no active task with a due date after
    [now] is due earlier; it yields nothing exactly when no active task is
    due after [now]. *)
Theorem nextUpcomingTask_is_earliest (now : Z) (tasks : list Task) :
  match nextUpcomingTask now tasks with
  | Some t =>
      t ∈ tasks /\ completed t = false /\
      exists d, dueTime t = Some d /\ now < d /\
        forall t' d', t' ∈ tasks -> completed t' = false ->
          dueTime t' = Some d' -> now < d' -> d <= d'
  | None =>
      forall t' d', t' ∈ tasks -> completed t' = false ->
        dueTime t' = Some d' -> d' <= now
  end.
Proof.
  unfold nextUpcomingTask.
  set (upcoming := filter (fun task => numGt (dueTime task) now = true)
                     (activeTasks tasks)).
  assert (forall t, t ∈ upcoming <->
            t ∈ tasks /\ completed t = false /\
            exists d, dueTime t = Some d /\ now < d) as Hup.
  { intros t. unfold upcoming, activeTasks. rewrite !list_elem_of_filter.
    unfold numGt. destruct (dueTime t) as [d|].
    - rewrite Z.ltb_lt. split.
      + intros [Hd [Hc Hin]]. repeat split; try done. by exists d.
      + intros [Hin [Hc [d' [[= <-] Hd]]]]. done.
    - split; [intros [? _]; discriminate | intros [_ [_ [d' [? _]]]]; discriminate]. }
  destruct (arraySort compareDue upcoming) as [|t rest] eqn:Es; simpl.
  - intros t' d' Hin Hc Hd'.
    destruct (Z.le_gt_cases d' now) as [Hle|Hgt]; [exact Hle|exfalso].
    assert (t' ∈ upcoming) as Ht' by (apply Hup; eauto 10).
    apply (elem_of_arraySort compareDue) in Ht'. rewrite Es in Ht'.
    by apply elem_of_nil in Ht'.
  - assert (t ∈ upcoming) as Ht
      by (apply (elem_of_arraySort compareDue); rewrite Es; by left).
    apply Hup in Ht as [Hin [Hc [d [Hd Hfut]]]].
    repeat split; try done. exists d. repeat split; try done.
    intros t' d' Hin' Hc' Hd' Hfut'.
    assert (t' ∈ upcoming) as Ht' by (apply Hup; eauto 10).
    pose proof (arraySort_head_least compareDue
                  (fun task => default 0 (dueTime task))
                  (fun task => is_Some (dueTime task)) upcoming) as Hleast.
    specialize (Hleast
      ltac:(intros a b [x Ha] [y Hb]; unfold compareDue; by rewrite Ha, Hb)).
    assert (Forall (fun task => is_Some (dueTime task)) upcoming) as HP.
    { apply Forall_forall. intros u Hu. apply Hup in Hu as [_ [_ [x [-> _]]]].
      by eexists. }
    specialize (Hleast HP t rest Es t' Ht'). simpl in Hleast.
    by rewrite Hd, Hd' in Hleast.
Qed.

Lemma filter_eq_app_cons {A : Type} (P : A -> Prop) `{!forall x, Decision (P x)}
    (l l1 l2 : list A) (x : A) :
  filter P l = l1 ++ x :: l2 ->
  exists L1 L2, l = L1 ++ x :: L2 /\ filter P L1 = l1 /\ filter P L2 = l2.
Proof.
  revert l1. induction l as [|y l IH]; intros l1 Hf.
  - by destruct l1.
  - rewrite filter_cons in Hf. destruct (decide (P y)) as [Hy|Hy].
    + destruct l1 as [|z l1]; simpl in Hf; injection Hf as Heq Hrest; subst.
      * exists [], l. by rewrite filter_nil.
      * destruct (IH l1 Hrest) as [L1 [L2 [-> [H1 H2]]]].
        exists (z :: L1), L2. rewrite filter_cons, decide_True by exact Hy.
        by rewrite H1.
    + destruct (IH l1 Hf) as [L1 [L2 [-> [H1 H2]]]].
      exists (y :: L1), L2. rewrite filter_cons, decide_False by exact Hy.
      done.
Qed.

(** The sort being stable, the head is the first of the least elements. *)
Lemma arraySort_head_first {A : Type} (compare : A -> A -> Z) (key : A -> Z)
    (P : A -> Prop) (l : list A) :
  (forall a b, P a -> P b -> compare a b = key a - key b) ->
  Forall P l ->
  forall m rest, arraySort compare l = m :: rest ->
    exists l1 l2, l = l1 ++ m :: l2 /\
      (forall y, y ∈ l1 -> key m < key y) /\
      (forall y, y ∈ l2 -> key m <= key y).
Proof.
  intros Hcmp. induction l as [|x l IH]; intros HP m rest Hs;
    [discriminate Hs|].
  apply Forall_cons in HP as [Hx HP].
  change (arraySort compare (x :: l))
    with (insertSorted compare x (arraySort compare l)) in Hs.
  destruct (arraySort compare l) as [|z s] eqn:Es.
  - assert (l = []) as ->.
    { destruct l as [|w l]; [reflexivity|].
      pose proof (length_arraySort compare (w :: l)) as Hlen.
      rewrite Es in Hlen. discriminate Hlen. }
    simpl in Hs. injection Hs as <- <-. exists [], [].
    repeat split; intros y Hy; by apply elem_of_nil in Hy.
  - destruct (IH HP z s eq_refl) as [a1 [a2 [-> [H1 H2]]]].
    assert (P z) as HPz.
    { rewrite Forall_forall in HP. apply HP. set_solver. }
    simpl in Hs. rewrite (Hcmp x z Hx HPz) in Hs.
    destruct (Z.leb_spec (key x - key z) 0) as [Hle|Hgt];
      injection Hs as <- <-.
    + exists [], (a1 ++ z :: a2). repeat split.
      * intros y Hy. by apply elem_of_nil in Hy.
      * intros y Hy. apply elem_of_app in Hy as [Hy|Hy].
        -- specialize (H1 y Hy). lia.
        -- apply elem_of_cons in Hy as [->|Hy]; [lia|].
           specialize (H2 y Hy). lia.
    + exists (x :: a1), a2. repeat split; [|exact H2].
      intros y Hy. apply elem_of_cons in Hy as [->|Hy]; [lia|by apply H1].
Qed.

(** X20: ties go to the task listed first.  Every active task that stands
    before the "next upcoming" one in the list and is due after [now] is due
    strictly later than it: among tasks due at the same earliest instant the
    first in list order is the one shown. *)
Theorem nextUpcomingTask_first_among_ties (now : Z) (tasks : list Task)
    (t : Task) (d : Z) :
  nextUpcomingTask now tasks = Some t ->
  dueTime t = Some d ->
  exists before after,
    tasks = before ++ t :: after /\
    forall t' d', t' ∈ before -> completed t' = false ->
      dueTime t' = Some d' -> now < d' -> d < d'.
Proof.
  unfold nextUpcomingTask. intros Hnext Hd.
  set (upcoming := filter (fun task => numGt (dueTime task) now = true)
                     (activeTasks tasks)) in *.
  destruct (arraySort compareDue upcoming) as [|m rest] eqn:Es;
    [discriminate Hnext|]. simpl in Hnext. injection Hnext as ->.
  assert (Forall (fun task => is_Some (dueTime task)) upcoming) as HP.
  { apply Forall_forall. intros u Hu. unfold upcoming in Hu.
    apply list_elem_of_filter in Hu as [Hu _]. unfold numGt in Hu.
    destruct (dueTime u); [by eexists | discriminate]. }
  destruct (arraySort_head_first compareDue
              (fun task => default 0 (dueTime task))
              (fun task => is_Some (dueTime task)) upcoming
              ltac:(intros a b [x Ha] [y Hb]; unfold compareDue;
                    by rewrite Ha, Hb)
              HP t rest Es) as [l1 [l2 [Hup [Hbefore _]]]].
  unfold upcoming in Hup.
  apply filter_eq_app_cons in Hup as [A1 [A2 [Hact [HA1 _]]]].
  unfold activeTasks in Hact.
  apply filter_eq_app_cons in Hact as [B1 [B2 [-> [HB1 _]]]].
  exists B1, B2. split; [reflexivity|].
  intros t' d' Hin Hc Hd' Hfut.
  assert (t' ∈ l1) as Hl1.
  { rewrite <- HA1, <- HB1. apply list_elem_of_filter.
    split; [|by apply list_elem_of_filter].
    unfold numGt. rewrite Hd'. by apply Z.ltb_lt. }
  specialize (Hbefore t' Hl1). simpl in Hbefore.
  by rewrite Hd, Hd' in Hbefore.
Qed.

Lemma nextUpcomingTask_first_among_ties_witness :
  exists before after,
    [sampleTask "late" (DueText (Some 9000)); sampleTask "a" (DueText (Some 5000));
     sampleTask "b" (DueText (Some 5000))]
    = before ++ sampleTask "a" (DueText (Some 5000)) :: after /\
    forall t' d', t' ∈ before -> completed t' = false ->
      dueTime t' = Some d' -> 0 < d' -> 5000 < d'.
Proof.
  apply (nextUpcomingTask_first_among_ties 0
           [sampleTask "late" (DueText (Some 9000));
            sampleTask "a" (DueText (Some 5000));
            sampleTask "b" (DueText (Some 5000))]
           (sampleTask "a" (DueText (Some 5000))) 5000); reflexivity.
Defined.

(** * The history *)

Lemma addAllToHistory_snoc calls (newId : string) (now now' : Z)
    (action : string) (task : Task) (stored : StoredHistory) :
  addAllToHistory (calls ++ [(newId, now, now', action, task)]) stored
  = addToHistory newId now now' action task None None
      (addAllToHistory calls stored).
Proof. unfold addAllToHistory. by rewrite foldl_app. Qed.

Lemma addAllToHistory_readable calls (stored : StoredHistory)
    (existing : list HistoryEntry) :
  readHistory stored = Some existing ->
  exists entries,
    readHistory (addAllToHistory calls stored) = Some entries /\
    length entries
    = (if decide (calls = []) then length existing
       else Nat.min 500 (length calls + length existing)) /\
    forall (i : nat) newId now now' action task,
      rev calls !! i = Some (newId, now, now', action, task) ->
      (i < 500)%nat ->
      exists e, entries !! i = Some e /\
        h_id e = newId /\ h_timestamp e = now /\ h_action e = action /\
        h_taskId e = id task /\
        h_completedAt e
        = if decide (action = "completed") then Some now' else None.
Proof.
  intros Hread. induction calls as [|[[[[newId now] now'] action] task] calls IH]
    using rev_ind.
  - exists existing. split; [exact Hread|]. split; [reflexivity|].
    intros i ? ? ? ? ? Hi. simpl in Hi. by rewrite lookup_nil in Hi.
  - destruct IH as [entries [Hr [Hlen Hpos]]].
    rewrite addAllToHistory_snoc. unfold addToHistory. rewrite Hr. cbv zeta.
    eexists. split; [reflexivity|]. split.
    + destruct (decide (calls ++ [(newId, now, now', action, task)] = []))
        as [Heq|_]; [by destruct calls|].
      cbn [length]. rewrite length_take, Hlen, length_app. cbn [length].
      destruct (decide (calls = [])) as [->|_]; cbn [length]; lia.
    + intros i newId0 now0 now0' action0 task0 Hi Hlt.
      rewrite rev_app_distr in Hi. simpl in Hi.
      destruct i as [|i]; simpl in Hi.
      * injection Hi as <- <- <- <- <-. eexists. split; [reflexivity|].
        by repeat split.
      * destruct (Hpos i _ _ _ _ _ Hi) as [e [He Hfields]]; [lia|].
        exists e. split; [|exact Hfields].
        simpl. rewrite lookup_take_lt by lia. exact He.
Qed.

(** X21: the history is capped and newest first.  After any number of
    [addToHistory] calls on a readable store it holds at most 500 entries,
    and the call made [i] calls ago, for [i] below 500, is the entry at
    index [i], with its id, time stamp, action and task id, and with
    [completedAt] set exactly for the action "completed"; older entries
    fall off the end. *)
Theorem history_keeps_newest_500
    (calls : list (string * Z * Z * string * Task)) (stored : StoredHistory)
    (existing : list HistoryEntry) :
  readHistory stored = Some existing ->
  calls <> [] ->
  exists entries,
    addAllToHistory calls stored = StoredEntries entries /\
    length entries = Nat.min 500 (length calls + length existing) /\
    forall (i : nat) newId now now' action task,
      rev calls !! i = Some (newId, now, now', action, task) ->
      (i < 500)%nat ->
      exists e, entries !! i = Some e /\
        h_id e = newId /\ h_timestamp e = now /\ h_action e = action /\
        h_taskId e = id task /\
        h_completedAt e
        = if decide (action = "completed") then Some now' else None.
Proof.
  intros Hread Hne.
  destruct (addAllToHistory_readable calls stored existing Hread)
    as [entries [Hr [Hlen Hpos]]].
  rewrite decide_False in Hlen by exact Hne.
  exists entries. split; [|split; [exact Hlen | exact Hpos]].
  destruct calls as [|c calls _] using rev_ind; [done|].
  destruct c as [[[[newId now] now'] action] task].
  rewrite addAllToHistory_snoc in Hr |- *.
  destruct (addAllToHistory_readable calls stored existing Hread)
    as [prev [Hprev _]].
  unfold addToHistory in Hr |- *. rewrite Hprev in Hr |- *.
  cbv zeta in Hr |- *. simpl in Hr. by injection Hr as <-.
Qed.

Lemma history_keeps_newest_500_witness :
  exists entries,
    addAllToHistory
      [("h1", 10, 11, "created", sampleTask "a" DueMissing);
       ("h2", 20, 21, "completed", sampleTask "a" DueMissing)] NotStored
    = StoredEntries entries /\
    length entries = Nat.min 500 (2 + 0) /\
    forall (i : nat) newId now now' action task,
      rev [("h1", 10, 11, "created", sampleTask "a" DueMissing);
           ("h2", 20, 21, "completed", sampleTask "a" DueMissing)] !! i
      = Some (newId, now, now', action, task) ->
      (i < 500)%nat ->
      exists e, entries !! i = Some e /\
        h_id e = newId /\ h_timestamp e = now /\ h_action e = action /\
        h_taskId e = id task /\
        h_completedAt e
        = if decide (action = "completed") then Some now' else None.
Proof.
  apply (history_keeps_newest_500
           [("h1", 10, 11, "created", sampleTask "a" DueMissing);
            ("h2", 20, 21, "completed", sampleTask "a" DueMissing)]
           NotStored []); [reflexivity | discriminate].
Defined.

(** X23: on a readable store (a missing one, or an array of entries),
    importing a history puts the imported entries first and cuts the result
    at 499 entries (one fewer than [addToHistory] keeps): a backup with 499
    or more history entries replaces the stored history altogether, a small
    one is simply put in front. *)
Theorem import_history_cuts_at_499 (history : list HistoryEntry)
    (stored : StoredHistory) (existing : list HistoryEntry) :
  readHistory stored = Some existing ->
  exists entries,
    importHistory (Some history) stored = StoredEntries entries /\
    length entries = Nat.min 499 (length history + length existing) /\
    take (length history) entries = take 499 history /\
    ((499 <= length history)%nat -> entries = take 499 history) /\
    ((length history + length existing <= 499)%nat ->
     entries = history ++ existing).
Proof.
  intros Hread. unfold importHistory. rewrite Hread.
  eexists. split; [reflexivity|]. split; [|split; [|split]].
  - rewrite length_take, length_app. lia.
  - rewrite take_take, take_app.
    destruct (decide (length history <= 499)%nat) as [Hle|Hgt].
    + rewrite Nat.min_l by lia.
      rewrite (take_ge history (length history)) by lia.
      rewrite (take_ge history 499) by lia.
      replace (length history - length history)%nat with 0%nat by lia.
      by rewrite take_0, app_nil_r.
    + rewrite Nat.min_r by lia.
      replace (499 - length history)%nat with 0%nat by lia.
      by rewrite take_0, app_nil_r.
  - intros Hbig. rewrite take_app.
    replace (499 - length history)%nat with 0%nat by lia.
    by rewrite take_0, app_nil_r.
  - intros Hsmall. apply take_ge. rewrite length_app. lia.
Qed.

Lemma import_history_cuts_at_499_witness :
  let imported := sampleEntry "imported" in
  let kept := sampleEntry "kept" in
  importHistory (Some (replicate 500 imported)) (StoredEntries [kept; kept])
  = StoredEntries (replicate 499 imported) /\
  importHistory (Some [imported]) (StoredEntries [kept; kept])
  = StoredEntries [imported; kept; kept].
Proof.
  intros imported kept.
  destruct (import_history_cuts_at_499 (replicate 500 imported)
              (StoredEntries [kept; kept]) [kept; kept] eq_refl)
    as [big [Hbig [_ [_ [Hcut _]]]]].
  destruct (import_history_cuts_at_499 [imported]
              (StoredEntries [kept; kept]) [kept; kept] eq_refl)
    as [small [Hsmall [_ [_ [_ Hfit]]]]].
  split.
  - rewrite Hbig, Hcut by (rewrite length_replicate; lia).
    by rewrite take_replicate.
  - rewrite Hsmall, Hfit by (simpl; lia). reflexivity.
Defined.

(** X24: what the history panel shows.  When the history was written by
    [addToHistory] alone, every entry the panel loads is a "completed" one
    and carries its completion time, so the panel's counters never meet a
    missing date; and the panel never shows more entries than were
    recorded. *)
Theorem loaded_history_has_completion_times
    (calls : list (string * Z * Z * string * Task)) :
  Forall (fun item => h_action item = "completed" /\
                      is_Some (h_completedAt item))
    (loadHistory (addAllToHistory calls NotStored)) /\
  (length (loadHistory (addAllToHistory calls NotStored))
   <= Nat.min 500 (length calls))%nat.
Proof.
  assert (exists entries,
            readHistory (addAllToHistory calls NotStored) = Some entries /\
            (length entries <= Nat.min 500 (length calls))%nat /\
            Forall (fun item => h_action item = "completed" ->
                                is_Some (h_completedAt item)) entries)
    as [entries [Hr [Hlen Hinv]]].
  { induction calls as [|[[[[newId now] now'] action] task] calls IH]
      using rev_ind.
    - exists []. repeat split; [simpl; lia | constructor].
    - destruct IH as [entries [Hr [Hlen Hinv]]].
      rewrite addAllToHistory_snoc. unfold addToHistory. rewrite Hr. cbv zeta.
      eexists. split; [reflexivity|]. split.
      + cbn [length]. rewrite length_take, length_app. cbn [length]. lia.
      + constructor.
        * simpl. intros ->. rewrite decide_True by reflexivity. by eexists.
        * by apply Forall_take. }
  unfold loadHistory. rewrite Hr. split.
  - apply Forall_forall. intros item Hitem.
    apply list_elem_of_filter in Hitem as [Hact Hin]. split; [exact Hact|].
    rewrite Forall_forall in Hinv. by apply Hinv.
  - etransitivity; [apply length_filter | exact Hlen].
Qed.

(** * The list shown *)

Section SortOrder.

Context {A : Type} (compare : A -> A -> Z) (P : A -> Prop).

Hypothesis compare_total :
  forall a b, P a -> P b -> 0 < compare a b -> compare b a <= 0.
Hypothesis compare_trans :
  forall a b c, P a -> P b -> P c ->
    compare a b <= 0 -> compare b c <= 0 -> compare a c <= 0.

Lemma insertSorted_sorted (x : A) (l : list A) :
  P x -> Forall P l ->
  StronglySorted (fun a b => compare a b <= 0) l ->
  StronglySorted (fun a b => compare a b <= 0) (insertSorted compare x l).
Proof.
  intros Hx HP Hs. induction l as [|y l IH]; simpl.
  - repeat constructor.
  - apply Forall_cons in HP as [Hy HP].
    apply StronglySorted_cons in Hs as [Hyl Hs].
    destruct (Z.leb_spec (compare x y) 0) as [Hle|Hgt].
    + apply StronglySorted_cons. split.
      * constructor; [exact Hle|].
        rewrite Forall_forall in Hyl, HP |- *. intros z Hz.
        apply (compare_trans x y z); auto.
      * apply StronglySorted_cons. by split.
    + apply StronglySorted_cons. split; [|by apply IH].
      apply Forall_forall. intros z Hz.
      apply elem_of_insertSorted in Hz as [->|Hz].
      * by apply compare_total.
      * rewrite Forall_forall in Hyl. by apply Hyl.
Qed.

Lemma arraySort_sorted (l : list A) :
  Forall P l ->
  StronglySorted (fun a b => compare a b <= 0) (arraySort compare l).
Proof.
  induction l as [|x l IH]; intros HP; [constructor|].
  apply Forall_cons in HP as [Hx HP].
  change (arraySort compare (x :: l))
    with (insertSorted compare x (arraySort compare l)).
  apply insertSorted_sorted; [exact Hx| |by apply IH].
  apply Forall_forall. intros z Hz. apply elem_of_arraySort in Hz.
  rewrite Forall_forall in HP. by apply HP.
Qed.

End SortOrder.

Lemma StronglySorted_lookup_lt {A : Type} (R : A -> A -> Prop) (l : list A)
    (i j : nat) (a b : A) :
  StronglySorted R l -> (i < j)%nat ->
  l !! i = Some a -> l !! j = Some b -> R a b.
Proof.
  intros Hs. revert i j. induction Hs as [|x l Hs IH Hx]; intros i j Hij Ha Hb.
  - by rewrite lookup_nil in Ha.
  - destruct j as [|j]; [lia|]. simpl in Hb. destruct i as [|i].
    + simpl in Ha. injection Ha as <-.
      rewrite Forall_forall in Hx. apply Hx.
      by apply list_elem_of_lookup_2 with j.
    + simpl in Ha. apply (IH i j); [lia | done | done].
Qed.

Ltac decide_literals :=
  repeat match goal with
         | |- context [decide (?a = ?b)] =>
             first [ rewrite (decide_True (P := a = b)) by reflexivity
                   | rewrite (decide_False (P := a = b)) by discriminate ]
         end.

(** X25: what the list shows.  A task is listed exactly when it is an
    active task of the list that passes the search, so the "completed"
    filter lists nothing and "active" lists what "all" lists; sorting only
    rearranges, and without a search text the list has as many rows as the
    header counts active tasks. *)
Theorem filteredTasks_lists_active_matches
    (queryMatches : string -> Task -> bool)
    (compareCreated : Task -> Task -> Z)
    (localeCompare : string -> string -> Z)
    (filterBy query sortBy : string) (tasks : list Task) :
  (forall t,
     t ∈ filteredTasks queryMatches compareCreated localeCompare
           filterBy query sortBy tasks <->
     t ∈ tasks /\ completed t = false /\ filterBy <> "completed" /\
     (query = "" \/ queryMatches query t = true)) /\
  filteredTasks queryMatches compareCreated localeCompare
    "completed" query sortBy tasks = [] /\
  filteredTasks queryMatches compareCreated localeCompare
    "active" query sortBy tasks
  = filteredTasks queryMatches compareCreated localeCompare
      "all" query sortBy tasks /\
  (length (filteredTasks queryMatches compareCreated localeCompare
             filterBy query sortBy tasks) <= stats_active tasks)%nat /\
  length (filteredTasks queryMatches compareCreated localeCompare
            "all" "" sortBy tasks) = stats_active tasks.
Proof.
  assert (forall l : list Task,
            (forall t, t ∈ l -> completed t = false) ->
            filter (fun t => completed t = true) l = []) as Hnone.
  { intros l Hl. induction l as [|t l IH]; [reflexivity|].
    rewrite filter_cons, decide_False.
    - apply IH. intros u Hu. apply Hl. by right.
    - rewrite (Hl t) by (by left). discriminate. }
  assert (forall l : list Task,
            (forall t, t ∈ l -> completed t = false) ->
            filter (fun t => completed t = false) l = l) as Hall.
  { intros l Hl. induction l as [|t l IH]; [reflexivity|].
    rewrite filter_cons, decide_True by (apply Hl; by left).
    f_equal. apply IH. intros u Hu. apply Hl. by right. }
  assert (forall t, t ∈ activeTasks tasks -> completed t = false) as Hact.
  { intros t Ht. unfold activeTasks in Ht.
    by apply list_elem_of_filter in Ht as [Hc _]. }
  split; [|split; [|split; [|split]]].
  - intros t. unfold filteredTasks. cbv zeta.
    rewrite elem_of_arraySort.
    destruct (decide (filterBy = "active")) as [->|Hna].
    + decide_literals. rewrite (Hall _ Hact).
      destruct (decide (query = "")) as [->|Hq].
      * unfold activeTasks. rewrite list_elem_of_filter. split.
        -- intros [Hc Hin]. repeat split; try done. by left.
        -- tauto.
      * unfold activeTasks. rewrite !list_elem_of_filter. split.
        -- intros [Hm [Hc Hin]]. repeat split; try done. by right.
        -- intros [Hin [Hc [_ [Hq'|Hm]]]]; [done|tauto].
    + destruct (decide (filterBy = "completed")) as [->|Hnc].
      * rewrite (Hnone _ Hact).
        destruct (decide (query = "")); rewrite ?filter_nil, elem_of_nil;
          tauto.
      * destruct (decide (query = "")) as [->|Hq].
        -- unfold activeTasks. rewrite list_elem_of_filter. split.
           ++ intros [Hc Hin]. repeat split; try done. by left.
           ++ tauto.
        -- unfold activeTasks. rewrite !list_elem_of_filter. split.
           ++ intros [Hm [Hc Hin]]. repeat split; try done. by right.
           ++ intros [Hin [Hc [_ [Hq'|Hm]]]]; [done|tauto].
  - unfold filteredTasks. cbv zeta. decide_literals. rewrite (Hnone _ Hact).
    by destruct (decide (query = "")).
  - unfold filteredTasks. cbv zeta. decide_literals.
    by rewrite (Hall _ Hact).
  - unfold filteredTasks, stats_active. cbv zeta.
    rewrite length_arraySort.
    set (active := activeTasks tasks). clearbody active.
    repeat match goal with
           | |- context [decide ?Q] => destruct (decide Q)
           end;
      repeat (etransitivity; [apply length_filter|]); lia.
  - unfold filteredTasks, stats_active. cbv zeta. decide_literals.
    apply length_arraySort.
Qed.

(** X26: sorted by due date, undated tasks last.  When no task carries an
    unparseable due date, the list sorted by "due" has every dated task
    before every undated one and the dated ones in ascending order of due
    time, whatever the filter and the search. *)
Theorem filteredTasks_due_order
    (queryMatches : string -> Task -> bool)
    (compareCreated : Task -> Task -> Z)
    (localeCompare : string -> string -> Z)
    (filterBy query : string) (tasks : list Task) :
  Forall (fun t => dueUtc t <> DueText None) tasks ->
  forall (i j : nat) (a b : Task),
    (i < j)%nat ->
    filteredTasks queryMatches compareCreated localeCompare
      filterBy query "due" tasks !! i = Some a ->
    filteredTasks queryMatches compareCreated localeCompare
      filterBy query "due" tasks !! j = Some b ->
    (dueUtc a = DueMissing -> dueUtc b = DueMissing) /\
    (forall x y, dueTime a = Some x -> dueTime b = Some y -> x <= y).
Proof.
  intros Hvalid i j a b Hij Ha Hb.
  set (P := fun t : Task => dueUtc t <> DueText None).
  assert (forall l : list Task, Forall P l ->
            StronglySorted
              (fun a b => compareBy compareCreated localeCompare "due" a b <= 0)
              (arraySort (compareBy compareCreated localeCompare "due") l))
    as Hsorted.
  { intros l. apply arraySort_sorted.
    - intros u v Hu Hv. unfold compareBy, P in *.
      rewrite !decide_True by reflexivity.
      destruct (dueUtc u) as [|[x|]], (dueUtc v) as [|[y|]]; try done; lia.
    - intros u v w Hu Hv Hw. unfold compareBy, P in *.
      rewrite !decide_True by reflexivity.
      destruct (dueUtc u) as [|[x|]], (dueUtc v) as [|[y|]],
        (dueUtc w) as [|[z|]]; try done; lia. }
  assert (forall l : list Task, Forall P l ->
            forall Q `{!forall t, Decision (Q t)}, Forall P (filter Q l))
    as Hfilter.
  { intros l Hl Q ?. apply Forall_forall. intros t Ht.
    apply list_elem_of_filter in Ht as [_ Ht].
    rewrite Forall_forall in Hl. by apply Hl. }
  unfold filteredTasks in Ha, Hb. cbv zeta in Ha, Hb.
  match type of Ha with
  | arraySort _ ?arr !! _ = _ =>
      assert (Forall P arr) as Harr
  end.
  { repeat match goal with
           | |- context [decide ?Q] => destruct (decide Q)
           end; unfold activeTasks; repeat apply Hfilter; exact Hvalid. }
  pose proof (StronglySorted_lookup_lt _ _ i j a b (Hsorted _ Harr) Hij Ha Hb)
    as Hab.
  assert (P a /\ P b) as [HPa HPb].
  { rewrite Forall_forall in Harr.
    split; apply Harr;
      apply (elem_of_arraySort (compareBy compareCreated localeCompare "due"));
      eapply list_elem_of_lookup_2; eassumption. }
  unfold compareBy in Hab. rewrite decide_True in Hab by reflexivity.
  unfold dueTime, P in *.
  destruct (dueUtc a) as [|[x|]], (dueUtc b) as [|[y|]]; try done; try lia.
  split; [done|]. intros ? ? [= <-] [= <-]. lia.
Qed.

Lemma filteredTasks_due_order_witness :
  (dueUtc (sampleTask "b" (DueText (Some 1000))) = DueMissing ->
   dueUtc (sampleTask "u" DueMissing) = DueMissing) /\
  (forall x y, dueTime (sampleTask "b" (DueText (Some 1000))) = Some x ->
               dueTime (sampleTask "u" DueMissing) = Some y -> x <= y).
Proof.
  apply (filteredTasks_due_order (fun _ _ => true) (fun _ _ => 0)
           (fun _ _ => 0) "all" ""
           [sampleTask "u" DueMissing; sampleTask "a" (DueText (Some 2000));
            sampleTask "b" (DueText (Some 1000))]
           ltac:(repeat (constructor; [discriminate|]); constructor)
           0%nat 2%nat); [lia | reflexivity | reflexivity].
Defined.

(** X27: a due date that does not parse, everywhere else.  Such a task is
    counted neither overdue nor due soon, is never the "next upcoming" task,
    and its countdown reads "NaNm NaNs" under the label "Planned" at every
    clock reading. *)
Theorem invalid_due_date_in_the_views (now : Z) (tasks : list Task) (t : Task) :
  dueUtc t = DueText None ->
  isOverdueAt now t = false /\
  isDueSoonAt now t = false /\
  nextUpcomingTask now tasks <> Some t /\
  tl_isOverdue (useCountdown (dueUtc t) now) = false /\
  getTimerText (useCountdown (dueUtc t) now) = "NaNm NaNs" /\
  tc_label (getTimerConfig (useCountdown (dueUtc t) now)) = "Planned".
Proof.
  intros Hd.
  assert (dueTime t = None) as Hnone by (unfold dueTime; by rewrite Hd).
  unfold isOverdueAt, isDueSoonAt. rewrite Hnone, Hd.
  repeat split; try reflexivity.
  unfold nextUpcomingTask. intros Hnext.
  assert (t ∈ filter (fun task => numGt (dueTime task) now = true)
                (activeTasks tasks)) as Hin.
  { apply (elem_of_arraySort compareDue).
    destruct (arraySort compareDue _) as [|m rest]; [discriminate Hnext|].
    simpl in Hnext. injection Hnext as ->. by left. }
  apply list_elem_of_filter in Hin as [Hgt _].
  rewrite Hnone in Hgt. discriminate Hgt.
Qed.

Lemma invalid_due_date_in_the_views_witness :
  getTimerText (useCountdown (dueUtc (sampleTask "a" (DueText None))) 5)
  = "NaNm NaNs".
Proof.
  destruct (invalid_due_date_in_the_views 5 [sampleTask "a" (DueText None)]
              (sampleTask "a" (DueText None))) as [_ [_ [_ [_ [H _]]]]];
    [reflexivity | exact H].
Defined.
